(** * st1_sqlalchemy: connection and session lifecycle manager

    A shallow embedding of [st1_sqlalchemy/__init__.py]: the classes
    [DatabaseServer], [DatabaseManager] and [DatabaseContext].

    Python objects that are mutated in place and reached through more than
    one reference (the [DatabaseServer] instances held by a manager) live in
    a store and are named by their location.  Everything the SQLAlchemy and
    asgiref collaborators do is an explicit effect on the store: a fresh
    object identity, an entry in the trace, or a raised exception chosen by a
    [Driver] oracle. *)

From Stdlib Require Import ZArith String List Bool Lia.
From stdpp Require Import base option list gmap strings fin_maps.
Import ListNotations.

Local Open Scope Z_scope.
Local Open Scope string_scope.
Local Open Scope list_scope.

(** ** Exceptions *)

(** The exceptions a run can end in.  The first four are raised by the
    interpreter or by asgiref.  [InvalidReference] belongs to the model
    only: it answers a location that names no object, which no Python
    reference does.  [DriverError] stands for whatever the SQLAlchemy
    collaborator raises (it travels unchanged).  The last three are the
    taxonomy of the specification: no statement of the source raises one of
    those. *)
#[warnings="-register-all"]
Inductive exn : Type :=
| AttributeError
| KeyError
| IndexError
| TypeError
| InvalidReference
| DriverError (msg : string)
| ConfigurationError
| NotFoundError
| CloseError (causes : list exn).

(** ** Values of the collaborators *)

(** The four SQLAlchemy classes the source names. *)
Inductive pyclass : Type := Engine | AsyncEngine | Session | AsyncSession.

Definition pyclass_eqb (a b : pyclass) : bool :=
  match a, b with
  | Engine, Engine | AsyncEngine, AsyncEngine
  | Session, Session | AsyncSession, AsyncSession => true
  | _, _ => false
  end.

(** The arguments of [URL.create], as the source passes them.  [_create_mssql]
    passes the dialect under the keyword [cls] and the ODBC driver under
    [drivername]; the two Postgres routines pass the dialect as first
    positional argument, which is [drivername].  [url_cls] is the keyword
    [cls] of the call: [URL_create] below builds a URL only when it is
    absent. *)
Record URL : Type := mkURL {
  url_cls : option string;
  url_drivername : string;
  url_username : string;
  url_password : string;
  url_host : string;
  url_port : Z;
  url_database : option string
}.

(** A connection handle: the result of [create_engine] or
    [create_async_engine]. *)
Record EngineObj : Type := mkEngine {
  eng_id : nat;
  eng_class : pyclass;
  eng_url : URL;
  eng_encoding : option string;
  eng_echo : bool
}.

(** [sessionmaker(bind, class_, expire_on_commit=...)]. *)
Record sessionmaker : Type := mkSessionmaker {
  bind : EngineObj;
  class_ : pyclass;
  expire_on_commit : bool
}.

(** What calling a [sessionmaker] returns: an instance of its [class_]. *)
Record SessionObj : Type := mkSession {
  sess_id : nat;
  sess_class : pyclass;
  sess_bind : EngineObj;
  sess_expire_on_commit : bool
}.

(** [isinstance(obj, cls)] for the two kinds of object of the program. *)
Definition isinstance_engine (e : EngineObj) (c : pyclass) : bool :=
  pyclass_eqb (eng_class e) c.

(** The [close] attribute of an instance, by class: [Some false] is a plain
    method ([Session.close]), [Some true] a coroutine function
    ([AsyncSession.close]), [None] no such attribute (an engine has
    [dispose], not [close]). *)
Definition close_attr (c : pyclass) : option bool :=
  match c with
  | Session => Some false
  | AsyncSession => Some true
  | Engine | AsyncEngine => None
  end.

(** The objects [inspect.iscoroutinefunction] is asked about. *)
Inductive pyobj : Type :=
| Instance (s : SessionObj)
| BoundMethod (s : SessionObj) (is_coroutine : bool).

(** [inspect.iscoroutinefunction]: true of a function defined with
    [async def], false of every other object, a class instance included. *)
Definition iscoroutinefunction (o : pyobj) : bool :=
  match o with
  | Instance _ => false
  | BoundMethod _ c => c
  end.

(** Truth value of a [str | None]: [None] and the empty string are false. *)
Definition truthy (o : option string) : bool :=
  match o with
  | None => false
  | Some EmptyString => false
  | Some (String _ _) => true
  end.

(** ** The store *)

(** The routine [getattr(self, f'_create_{engine}')] finds. *)
Inductive create_method : Type :=
| Create_mssql
| Create_postgres
| Create_async_postgres.

Definition loc : Type := nat.

(** An instance of [DatabaseServer].  [databases] is the private
    [__databases] dictionary; its keys are what [get_session_maker] passes
    on, a [str] or [None]. *)
Record DatabaseServer : Type := mkServer {
  host : string;
  port : Z;
  username : string;
  password : string;
  _create_engine : create_method;
  databases : gmap (option string) (EngineObj * sessionmaker);
  default_database : option string
}.

Definition set_databases
    (d : gmap (option string) (EngineObj * sessionmaker))
    (s : DatabaseServer) : DatabaseServer :=
  mkServer (host s) (port s) (username s) (password s) (_create_engine s) d
    (default_database s).

(** How a session's [close] was reached: awaited directly, or wrapped in
    [sync_to_async] and run on a worker. *)
Inductive release_proc : Type := Awaited | ViaSyncToAsync.

(** What the collaborators did, oldest first.  [CloseCalled via s r]: the
    [close] of [s] ran, and completed ([r = None]) or raised. *)
Inductive event : Type :=
| EngineCreated (e : EngineObj)
| SessionOpened (s : SessionObj)
| CloseCalled (via : release_proc) (s : SessionObj) (outcome : option exn).

Record State : Type := mkState {
  servers : gmap loc DatabaseServer;
  next_id : nat;
  trace : list event;
  stdout : list string
}.

(** The collaborators' failures.  Each oracle answers [Some msg] when the
    call raises; the engine and session oracles see the identity the new
    object would get. *)
Record Driver : Type := mkDriver {
  drv_create_engine : nat → URL → option string;
  drv_create_async_engine : nat → URL → option string;
  drv_session : nat → sessionmaker → option string;
  drv_close : SessionObj → option string
}.

(** ** State and exceptions *)

Definition M (A : Type) : Type := State → (exn + A) * State.

Definition ret {A} (a : A) : M A := λ st, (inr a, st).

Definition raise {A} (e : exn) : M A := λ st, (inl e, st).

Definition and_then {A B} (m : M A) (k : A → M B) : M B :=
  λ st, match m st with
        | (inl e, st') => (inl e, st')
        | (inr a, st') => k a st'
        end.

Notation "'let!' x := m 'in' k" := (and_then m (λ x, k))
  (at level 10, x pattern, m at level 100, k at level 200).

Notation "m ;;; k" := (and_then m (λ _, k))
  (at level 100, k at level 200, right associativity).

(** A [for] loop that collects: the body runs on each item in order and the
    first exception ends the loop. *)
Fixpoint for_each {A B} (f : A → M B) (l : list A) : M (list B) :=
  match l with
  | [] => ret []
  | x :: l' => let! y := f x in let! ys := for_each f l' in ret (y :: ys)
  end.

(** A [for] loop run for its effects. *)
Fixpoint for_ {A} (f : A → M unit) (l : list A) : M unit :=
  match l with
  | [] => ret tt
  | x :: l' => f x ;;; for_ f l'
  end.

Definition log (ev : event) : M unit :=
  λ st, (inr tt, mkState (servers st) (next_id st) (trace st ++ [ev]) (stdout st)).

Definition print (line : string) : M unit :=
  λ st, (inr tt, mkState (servers st) (next_id st) (trace st) (stdout st ++ [line])).

Definition read_server (self : loc) : M DatabaseServer :=
  λ st, match servers st !! self with
        | Some s => (inr s, st)
        | None => (inl InvalidReference, st)
        end.

Definition write_server (self : loc) (s : DatabaseServer) : M unit :=
  λ st, (inr tt, mkState (<[self := s]> (servers st)) (next_id st) (trace st) (stdout st)).

(** The location of a new object: one that names no object yet. *)
Definition new_loc : M loc :=
  λ st, (inr (fresh (dom (servers st))), st).

(** ** The collaborators *)

Section Program.

Variable drv : Driver.

(** [URL.create(...)].  [URL.create] is a classmethod: its first parameter,
    [cls], is bound to the class [URL] by the call itself.  A call that
    passes [cls] again as a keyword is refused by the interpreter with
    [TypeError] (two values for one parameter) before the method runs. *)
Definition URL_create (cls_keyword : option string)
    (drivername username password host : string) (port : Z)
    (database : option string) : M URL :=
  match cls_keyword with
  | Some _ => raise TypeError
  | None => ret (mkURL None drivername username password host port database)
  end.

(** [create_engine(url, encoding=..., echo=...)]: an [Engine], or the
    driver's exception. *)
Definition create_engine (url : URL) (encoding : option string)
    (echo : bool) : M EngineObj :=
  λ st, match drv_create_engine drv (next_id st) url with
        | Some msg => (inl (DriverError msg), st)
        | None =>
            let e := mkEngine (next_id st) Engine url encoding echo in
            (inr e, mkState (servers st) (S (next_id st))
                       (trace st ++ [EngineCreated e]) (stdout st))
        end.

(** [create_async_engine(url, echo=...)]: an [AsyncEngine]. *)
Definition create_async_engine (url : URL) (echo : bool) : M EngineObj :=
  λ st, match drv_create_async_engine drv (next_id st) url with
        | Some msg => (inl (DriverError msg), st)
        | None =>
            let e := mkEngine (next_id st) AsyncEngine url None echo in
            (inr e, mkState (servers st) (S (next_id st))
                       (trace st ++ [EngineCreated e]) (stdout st))
        end.

(** Whether the constructor of a class takes the keywords a [sessionmaker]
    calls it with ([bind], [expire_on_commit], ...): the two session classes
    do, the two engine classes do not. *)
Definition takes_session_keywords (c : pyclass) : bool :=
  match c with
  | Session | AsyncSession => true
  | Engine | AsyncEngine => false
  end.

(** [session_maker()]: the factory calls its class with the keywords of a
    session.  A class whose constructor does not take them raises
    [TypeError]; otherwise the result is an instance of the factory's class
    bound to the factory's engine, or the driver's exception. *)
Definition call_sessionmaker (sm : sessionmaker) : M SessionObj :=
  λ st, if negb (takes_session_keywords (class_ sm)) then (inl TypeError, st)
        else
        match drv_session drv (next_id st) sm with
        | Some msg => (inl (DriverError msg), st)
        | None =>
            let s := mkSession (next_id st) (class_ sm) (bind sm)
                       (expire_on_commit sm) in
            (inr s, mkState (servers st) (S (next_id st))
                       (trace st ++ [SessionOpened s]) (stdout st))
        end.

(** The body of [session.close()], reached through [via]. *)
Definition run_close (via : release_proc) (s : SessionObj) : M unit :=
  match drv_close drv s with
  | Some msg =>
      log (CloseCalled via s (Some (DriverError msg))) ;;;
      raise (DriverError msg)
  | None => log (CloseCalled via s None)
  end.

(** [session.close]: the bound method, or [AttributeError]. *)
Definition getattr_close (s : SessionObj) : M pyobj :=
  match close_attr (sess_class s) with
  | Some c => ret (BoundMethod s c)
  | None => raise AttributeError
  end.

(** [await session.close()].  A coroutine function returns a coroutine that
    the [await] runs; a plain method runs at the call and returns [None],
    which cannot be awaited. *)
Definition await_close (f : pyobj) : M unit :=
  match f with
  | BoundMethod s true => run_close Awaited s
  | BoundMethod s false => run_close Awaited s ;;; raise TypeError
  | Instance _ => raise TypeError
  end.

(** [await sync_to_async(f)()].  asgiref refuses a coroutine function with
    [TypeError] when it wraps it; a plain method runs on a worker and its
    exception, if any, is raised at the [await]. *)
Definition sync_to_async_call (f : pyobj) : M unit :=
  if iscoroutinefunction f then raise TypeError
  else match f with
       | BoundMethod s _ => run_close ViaSyncToAsync s
       | Instance _ => raise TypeError
       end.

(** ** DatabaseServer *)

(** [getattr(self, name)] for a name of the form [_create_...], looked up
    while [__init__] runs: the class defines three such routines. *)
Definition find_create (name : string) : option create_method :=
  if String.eqb name "_create_mssql" then Some Create_mssql
  else if String.eqb name "_create_postgres" then Some Create_postgres
  else if String.eqb name "_create_async_postgres" then Some Create_async_postgres
  else None.

Definition getattr_create (name : string) : M create_method :=
  match find_create name with
  | Some routine => ret routine
  | None => raise AttributeError
  end.

Definition _create_mssql (self : DatabaseServer) (database : option string)
    : M EngineObj :=
  let! connection_url :=
    URL_create (Some "mssql+pyodbc") "ODBC Driver 17 for SQL Server"
      (username self) (password self) (host self) (port self) database in
  create_engine connection_url (Some "latin1") true.

Definition _create_postgres (self : DatabaseServer) (database : option string)
    : M EngineObj :=
  let! connection_url :=
    URL_create None "postgresql"
      (username self) (password self) (host self) (port self) database in
  create_engine connection_url (Some "latin1") true.

Definition _create_async_postgres (self : DatabaseServer)
    (database : option string) : M EngineObj :=
  let! connection_url :=
    URL_create None "postgresql+asyncpg"
      (username self) (password self) (host self) (port self) database in
  create_async_engine connection_url true.

(** [self._create_engine(database)]. *)
Definition call_create_engine (self : DatabaseServer)
    (database : option string) : M EngineObj :=
  match _create_engine self with
  | Create_mssql => _create_mssql self database
  | Create_postgres => _create_postgres self database
  | Create_async_postgres => _create_async_postgres self database
  end.

Definition _create (self : loc) (database : option string)
    : M (EngineObj * sessionmaker) :=
  let! obj := read_server self in
  let! engine := call_create_engine obj database in
  let session_cls :=
    if isinstance_engine engine AsyncEngine then AsyncEngine else Session in
  let session_maker := mkSessionmaker engine session_cls false in
  write_server self
    (set_databases (<[database := (engine, session_maker)]> (databases obj)) obj) ;;;
  ret (engine, session_maker).

Definition _get_or_create (self : loc) (database : option string)
    : M (EngineObj * sessionmaker) :=
  let! obj := read_server self in
  match databases obj !! database with
  | None => _create self database
  | Some cached => ret cached
  end.

Definition get_session_maker (self : loc) (database : option string)
    : M sessionmaker :=
  let! obj := read_server self in
  let database :=
    if negb (truthy database) then default_database obj else database in
  let! cached := _get_or_create self database in
  let session_maker := snd cached in
  ret session_maker.

(** [DatabaseServer(host, username, password, port, engine, default)]: the
    new instance is stored at a fresh location, which is the result. *)
Definition DatabaseServer_init (host username password : string) (port : Z)
    (engine : string) (default : option string) : M loc :=
  let! create := getattr_create ("_create_" ++ engine) in
  let! self := new_loc in
  write_server self (mkServer host port username password create ∅ default) ;;;
  (if truthy default then _get_or_create self default ;;; ret tt else ret tt) ;;;
  ret self.

(** ** DatabaseManager *)

(** An instance of [DatabaseManager].  [database_servers] is the private
    [__database_servers] dictionary, from host to the server object.
    [default_server] is [None] while the attribute has never been assigned:
    [__init__] assigns it only when it receives at least one server. *)
Record DatabaseManager : Type := mkManager {
  database_servers : gmap string loc;
  default_server : option string
}.

Fixpoint add (self : DatabaseManager) (db_servers : list loc)
    : M DatabaseManager :=
  match db_servers with
  | [] => ret self
  | db_server :: rest =>
      let! obj := read_server db_server in
      add (mkManager (<[host obj := db_server]> (database_servers self))
             (default_server self)) rest
  end.

Definition DatabaseManager_init (db_servers : list loc) : M DatabaseManager :=
  let! default :=
    match db_servers with
    | [] => ret None
    | first :: _ => let! obj := read_server first in ret (Some (host obj))
    end in
  add (mkManager ∅ default) db_servers.

(** [d[key]]. *)
Definition getitem (d : gmap string loc) (key : string) : M loc :=
  match d !! key with
  | Some l => ret l
  | None => raise KeyError
  end.

(** [manager.get(host)].  Reading [self.default_server] raises
    [AttributeError] when it was never assigned. *)
Definition get (self : DatabaseManager) (host : option string) : M loc :=
  if negb (truthy host) then
    match default_server self with
    | Some d => getitem (database_servers self) d
    | None => raise AttributeError
    end
  else
    match host with
    | Some h => getitem (database_servers self) h
    | None => raise KeyError
    end.

(** ** DatabaseContext *)

(** Modelled from the spec: the type [DBR] comes from [st1_sqlalchemy.types],
    which is not among the sources.  A Database Reference is "either empty,
    a single token, or a (host, database) pair"; the values below are the
    ones [DatabaseContext.__init__] tells apart: a tuple of [str | None]
    items of any length, a bare [str], and [None]. *)
Inductive DBR : Type :=
| RefTuple (items : list (option string))
| RefStr (token : string)
| RefNone.

(** The loop body of [__init__] up to the two assignments: a tuple of length
    two is unpacked, any other tuple gives its first item ([IndexError] when
    it has none), and what is not a tuple leaves both names at [None]. *)
Definition host_and_database (ref : DBR)
    : M (option string * option string) :=
  match ref with
  | RefTuple items =>
      match items with
      | [h; d] => ret (h, d)
      | h :: _ => ret (h, None)
      | [] => raise IndexError
      end
  | RefStr _ | RefNone => ret (None, None)
  end.

Record DatabaseContext : Type := mkContext {
  session_makers : list sessionmaker;
  sessions : option (list SessionObj)
}.

(** [not use] for [use] a list or [None]. *)
Definition use_is_empty (use : option (list DBR)) : bool :=
  match use with
  | None | Some [] => true
  | Some (_ :: _) => false
  end.

(** The expression [manager.get(host).get_session_maker(database)]. *)
Definition request (manager : DatabaseManager) (host database : option string)
    : M sessionmaker :=
  let! server := get manager host in
  get_session_maker server database.

(** One turn of the loop of [__init__]: the session factory of [ref]. *)
Definition session_maker_for (manager : DatabaseManager) (ref : DBR)
    : M sessionmaker :=
  let! hd := host_and_database ref in
  request manager (fst hd) (snd hd).

Definition DatabaseContext_init (manager : DatabaseManager)
    (use : option (list DBR)) : M DatabaseContext :=
  let! session_makers :=
    if use_is_empty use then
      let! session_maker := request manager None None in
      ret [session_maker]
    else
      for_each (session_maker_for manager) (default [] use) in
  ret (mkContext session_makers None).

Definition db_context (self : DatabaseManager) (use : option (list DBR))
    : M DatabaseContext :=
  DatabaseContext_init self use.

(** What [__aenter__] returns: the only session, or the tuple of them. *)
Inductive entered : Type :=
| One (s : SessionObj)
| Several (ss : list SessionObj).

(** [__aenter__].  The tuple is built before [self.sessions] is assigned, so
    an exception from a factory leaves the context as it was. *)
Definition __aenter__ (self : DatabaseContext) : M (DatabaseContext * entered) :=
  let! opened := for_each call_sessionmaker (session_makers self) in
  let self' := mkContext (session_makers self) (Some opened) in
  match opened with
  | [s] => print "RETURN SESSION" ;;; ret (self', One s)
  | _ => ret (self', Several opened)
  end.

(** The loop body of [__aexit__]. *)
Definition close_session (session : SessionObj) : M unit :=
  if iscoroutinefunction (Instance session) then
    let! f := getattr_close session in
    await_close f
  else
    print "CLOSING SYNC SESSION" ;;;
    let! f := getattr_close session in
    sync_to_async_call f.

(** [__aexit__]; it returns [None]. *)
Definition __aexit__ (self : DatabaseContext) : M unit :=
  match sessions self with
  | None | Some [] => ret tt
  | Some opened => for_ close_session opened
  end.

(** [async with ctx as v: body(v)].  When [__aenter__] raises, [__aexit__]
    is not called; otherwise it is called once after the body, and since it
    returns [None] an exception of the body is raised again after it. *)
Definition async_with {A} (ctx : DatabaseContext) (body : entered → M A)
    : M A :=
  λ st, match __aenter__ ctx st with
        | (inl e, st1) => (inl e, st1)
        | (inr (ctx1, v), st1) =>
            match body v st1 with
            | (inl e, st2) =>
                match __aexit__ ctx1 st2 with
                | (inl e', st3) => (inl e', st3)
                | (inr _, st3) => (inl e, st3)
                end
            | (inr a, st2) =>
                match __aexit__ ctx1 st2 with
                | (inl e', st3) => (inl e', st3)
                | (inr _, st3) => (inr a, st3)
                end
            end
        end.

End Program.

(** ** Observations on a run *)

(** [other] differs from [obj] at most by further cache entries. *)
Definition server_le (obj other : DatabaseServer) : Prop :=
  host other = host obj ∧ port other = port obj
  ∧ username other = username obj ∧ password other = password obj
  ∧ _create_engine other = _create_engine obj
  ∧ default_database other = default_database obj
  ∧ ∀ d cached, databases obj !! d = Some cached →
                databases other !! d = Some cached.

(** Every server object of [st] is still there in [st'], with at least the
    cache entries it had. *)
Definition extends (st st' : State) : Prop :=
  ∀ l obj, servers st !! l = Some obj →
           ∃ other, servers st' !! l = Some other ∧ server_le obj other.

(** The store after any number of further calls of the public operations. *)
Inductive later (drv : Driver) : State → State → Prop :=
| later_refl st : later drv st st
| later_get_session_maker st l d r st1 st2 :
    get_session_maker drv l d st = (r, st1) →
    later drv st1 st2 → later drv st st2
| later_DatabaseServer st h u p n k dflt r st1 st2 :
    DatabaseServer_init drv h u p n k dflt st = (r, st1) →
    later drv st1 st2 → later drv st st2
| later_DatabaseContext st m use r st1 st2 :
    DatabaseContext_init drv m use st = (r, st1) →
    later drv st1 st2 → later drv st st2
| later_aenter st ctx r st1 st2 :
    __aenter__ drv ctx st = (r, st1) →
    later drv st1 st2 → later drv st st2
| later_aexit st ctx r st1 st2 :
    __aexit__ drv ctx st = (r, st1) →
    later drv st1 st2 → later drv st st2.

(** The connection handles created during a run. *)
Definition engines_created (tr : list event) : list EngineObj :=
  omap (λ ev, match ev with EngineCreated e => Some e | _ => None end) tr.

(** The sessions whose [close] ran, completed or not, in order. *)
Definition close_attempts (tr : list event) : list SessionObj :=
  omap (λ ev, match ev with CloseCalled _ s _ => Some s | _ => None end) tr.

(** How many times the [close] of session [sid] ran to completion. *)
(** The sessions whose [close] ran to completion, in order. *)
Definition closed_sessions (tr : list event) : list SessionObj :=
  omap (λ ev, match ev with CloseCalled _ s None => Some s | _ => None end) tr.

(** The sessions opened during a run, in order. *)
Definition sessions_opened (tr : list event) : list SessionObj :=
  omap (λ ev, match ev with SessionOpened s => Some s | _ => None end) tr.

Definition is_close_of (sid : nat) (ev : event) : bool :=
  match ev with
  | CloseCalled _ s None => Nat.eqb (sess_id s) sid
  | _ => false
  end.

Definition times_closed (sid : nat) (tr : list event) : nat :=
  length (List.filter (is_close_of sid) tr).

(** The factory [_create] builds around a handle. *)
Definition factory_of (engine : EngineObj) : sessionmaker :=
  mkSessionmaker engine
    (if isinstance_engine engine AsyncEngine then AsyncEngine else Session)
    false.

(** The name [get_session_maker] looks up: the one given, or the default
    when the one given is [None] or empty. *)
Definition effective_database (obj : DatabaseServer)
    (database : option string) : option string :=
  if negb (truthy database) then default_database obj else database.

(** The two stores hold the same server objects. *)
Definition same_servers (st st' : State) : Prop := servers st' = servers st.

(** A session is an instance of its factory's class, bound to its factory's
    connection handle. *)
Definition made_by (f : sessionmaker) (s : SessionObj) : Prop :=
  sess_class s = class_ f ∧ sess_bind s = bind f
  ∧ sess_expire_on_commit s = expire_on_commit f.

(** What closing one session ends in: a session without [close] attribute
    gives [AttributeError], a coroutine [close] is refused by
    [sync_to_async], a plain [close] runs and may raise. *)
Definition close_outcome (drv : Driver) (s : SessionObj) : exn + unit :=
  match close_attr (sess_class s) with
  | None => inl AttributeError
  | Some true => inl TypeError
  | Some false =>
      match drv_close drv s with
      | Some msg => inl (DriverError msg)
      | None => inr tt
      end
  end.

Definition close_events (drv : Driver) (s : SessionObj) : list event :=
  match close_attr (sess_class s) with
  | Some false => [CloseCalled ViaSyncToAsync s (DriverError <$> drv_close drv s)]
  | _ => []
  end.

Definition after_closes (drv : Driver) (ss : list SessionObj) (st : State)
    : State :=
  mkState (servers st) (next_id st)
    (trace st ++ concat (map (close_events drv) ss))
    (stdout st ++ map (λ _, "CLOSING SYNC SESSION") ss).

(** The servers among [ls] whose host is [h], in order. *)
Definition servers_with_host (st : State) (h : string) (ls : list loc)
    : list loc :=
  filter (λ l, host <$> servers st !! l = Some h) ls.

(** The hosts of the server objects [ls] names, in order. *)
Definition hosts_of (st : State) (ls : list loc) : list string :=
  omap (λ l, host <$> servers st !! l) ls.

(** The registries are the same and no connection handle was created. *)
Definition caches_untouched (st st' : State) : Prop :=
  servers st' = servers st
  ∧ engines_created (trace st') = engines_created (trace st).

(** The dialect each connection routine passes to [URL.create]: the
    keyword [cls], if any, and [drivername]. *)
Definition dialect_of (routine : create_method) : option string * string :=
  match routine with
  | Create_mssql => (Some "mssql+pyodbc", "ODBC Driver 17 for SQL Server")
  | Create_postgres => (None, "postgresql")
  | Create_async_postgres => (None, "postgresql+asyncpg")
  end.

(** The cache entry of database [d] on [obj] is a handle to [d] at the
    address and with the credentials of [obj], in the dialect of its
    routine, together with the factory [_create] builds around it; and the
    routine of [obj] is one that can build a URL. *)
Definition entry_ok (obj : DatabaseServer) (d : option string)
    (cached : EngineObj * sessionmaker) : Prop :=
  _create_engine obj ≠ Create_mssql
  ∧ snd cached = factory_of (fst cached)
  ∧ eng_url (fst cached)
    = mkURL (fst (dialect_of (_create_engine obj)))
        (snd (dialect_of (_create_engine obj)))
        (username obj) (password obj) (host obj) (port obj) d
  ∧ eng_class (fst cached)
    = match _create_engine obj with
      | Create_async_postgres => AsyncEngine
      | _ => Engine
      end.

Definition cache_ok_at (l : loc) (st : State) : Prop :=
  ∀ obj d cached,
    servers st !! l = Some obj → databases obj !! d = Some cached →
    entry_ok obj d cached.

Definition keeps_cache_ok (l : loc) (st st' : State) : Prop :=
  cache_ok_at l st → cache_ok_at l st'.

(** ** Example runs *)

(** A driver that never fails. *)
Definition quiet : Driver :=
  mkDriver (λ _ _, None) (λ _ _, None) (λ _ _, None) (λ _, None).

Definition empty_state : State := mkState ∅ 0%nat [] [].

(** [DatabaseServer("db-a", "app", "secret", 5432, "oracle")]. *)
Definition oracle_server : M loc :=
  DatabaseServer_init quiet "db-a" "app" "secret" 5432 "oracle" None.

(** A Postgres registry without default database, then a request that
    names no database. *)
Definition no_default_request : M sessionmaker :=
  let! server :=
    DatabaseServer_init quiet "db-a" "app" "secret" 5432 "postgres" None in
  get_session_maker quiet server None.

(** [DatabaseServer("db-a", "app", "secret", 5432, "postgres", "orders")]. *)
Definition orders_server : M loc :=
  DatabaseServer_init quiet "db-a" "app" "secret" 5432 "postgres"
    (Some "orders").

(** Two Postgres registries, [db-a] with default database [orders] and
    [db-b] with default database [billing], given to a manager in that
    order, so that [db-a] is its default server. *)
Definition two_servers : M DatabaseManager :=
  let! a := DatabaseServer_init quiet "db-a" "app" "secret" 5432 "postgres"
              (Some "orders") in
  let! b := DatabaseServer_init quiet "db-b" "app" "secret" 5432 "postgres"
              (Some "billing") in
  DatabaseManager_init [a; b].

(** [manager.db_context(["db-b"])]. *)
Definition bare_token_scope : M DatabaseContext :=
  let! manager := two_servers in
  db_context quiet manager (Some [RefStr "db-b"]).

(** [manager.db_context([("db-b",)])]. *)
Definition tuple_token_scope : M DatabaseContext :=
  let! manager := two_servers in
  db_context quiet manager (Some [RefTuple [Some "db-b"]]).

(** A manager over the single registry [db-a], and a scope on three of its
    databases. *)
Definition three_databases (drv : Driver) : M DatabaseContext :=
  let! a := DatabaseServer_init drv "db-a" "app" "secret" 5432 "postgres"
              (Some "orders") in
  let! manager := DatabaseManager_init [a] in
  db_context drv manager
    (Some [RefTuple [Some "db-a"; Some "orders"];
           RefTuple [Some "db-a"; Some "billing"];
           RefTuple [Some "db-a"; Some "audit"]]).

(** [async with manager.db_context(...) as sessions: pass]. *)
Definition three_database_scope (drv : Driver) : M entered :=
  let! ctx := three_databases drv in
  async_with drv ctx (λ v, ret v).

(** A driver that refuses the object with identity 4: in
    [three_database_scope], the second session. *)
Definition refuses_second_session : Driver :=
  mkDriver (λ _ _, None) (λ _ _, None)
    (λ id _, if Nat.eqb id 4 then Some "connection refused" else None)
    (λ _, None).

(** A driver under which the [close] of the session with identity 4 raises:
    in [three_database_scope], the second session. *)
Definition second_close_fails : Driver :=
  mkDriver (λ _ _, None) (λ _ _, None) (λ _ _, None)
    (λ s, if Nat.eqb (sess_id s) 4 then Some "connection reset" else None).

Definition sample_url : URL :=
  mkURL None "postgresql" "app" "secret" "db-a" 5432 (Some "orders").

Definition sync_engine : EngineObj :=
  mkEngine 0 Engine sample_url (Some "latin1") true.

Definition async_engine : EngineObj :=
  mkEngine 1 AsyncEngine
    (mkURL None "postgresql+asyncpg" "app" "secret" "db-a" 5432 (Some "orders"))
    None true.

(** The store once the two handles above exist. *)
Definition two_engines_state : State :=
  mkState ∅ 2%nat [EngineCreated sync_engine; EngineCreated async_engine] [].

(** A manager over [db-a], a Postgres registry, and [db-b], an
    asynchronous Postgres registry, and a scope on both. *)
Definition mixed_kinds_context : M DatabaseContext :=
  let! a := DatabaseServer_init quiet "db-a" "app" "secret" 5432 "postgres"
              (Some "orders") in
  let! b := DatabaseServer_init quiet "db-b" "app" "secret" 5432
              "async_postgres" (Some "events") in
  let! manager := DatabaseManager_init [a; b] in
  db_context quiet manager (Some [RefTuple [Some "db-a"]; RefTuple [Some "db-b"]]).


(** A scope on an [async_postgres] registry. *)
Definition async_postgres_scope : M entered :=
  let! a := DatabaseServer_init quiet "db-a" "app" "secret" 5432
              "async_postgres" (Some "orders") in
  let! manager := DatabaseManager_init [a] in
  let! ctx := db_context quiet manager None in
  async_with quiet ctx (λ v, ret v).

(** A scope that holds three open [Session] instances, with identities 3, 4
    and 5. *)
Definition plain_session (id : nat) : SessionObj :=
  mkSession id Session sync_engine false.

Definition entered_context : DatabaseContext :=
  mkContext
    [mkSessionmaker sync_engine Session false;
     mkSessionmaker sync_engine Session false;
     mkSessionmaker sync_engine Session false]
    (Some [plain_session 3; plain_session 4; plain_session 5]).

(** The stores the runs above go through. *)
Definition orders_state : State := snd (orders_server empty_state).

Definition billing_state : State :=
  snd (get_session_maker quiet 0%nat (Some "billing") orders_state).

Definition audit_state : State :=
  snd (get_session_maker quiet 0%nat (Some "audit") billing_state).

Definition no_default_state : State :=
  snd (DatabaseServer_init quiet "db-a" "app" "secret" 5432 "postgres" None
         empty_state).

Definition mssql_state : State :=
  snd (DatabaseServer_init quiet "db-a" "app" "secret" 1433 "mssql" None
         empty_state).


Definition two_servers_state : State := snd (two_servers empty_state).

(** The manager [two_servers] returns. *)
Definition sample_manager : DatabaseManager :=
  mkManager {[ "db-a" := 0%nat; "db-b" := 1%nat ]} (Some "db-a").

(** A scope over three [Session] factories that has not been entered. *)
Definition fresh_context : DatabaseContext :=
  mkContext
    [mkSessionmaker sync_engine Session false;
     mkSessionmaker sync_engine Session false;
     mkSessionmaker sync_engine Session false]
    None.

(** * Properties *)

(** ** Running a computation *)

Lemma and_then_inr {A B} (m : M A) (k : A → M B) st b st' :
  and_then m k st = (inr b, st') →
  ∃ a st1, m st = (inr a, st1) ∧ k a st1 = (inr b, st').
Proof.
  unfold and_then. destruct (m st) as [[e|a] st1]; [discriminate|].
  intros H. by exists a, st1.
Qed.

Lemma and_then_inl {A B} (m : M A) (k : A → M B) st e st' :
  and_then m k st = (inl e, st') →
  m st = (inl e, st') ∨ ∃ a st1, m st = (inr a, st1) ∧ k a st1 = (inl e, st').
Proof.
  unfold and_then. destruct (m st) as [[e1|a] st1].
  - intros [= -> ->]. by left.
  - intros H. right. by exists a, st1.
Qed.

Lemma and_then_ok {A B} (m : M A) (k : A → M B) st a st1 :
  m st = (inr a, st1) → and_then m k st = k a st1.
Proof. unfold and_then. by intros ->. Qed.

Lemma and_then_fail {A B} (m : M A) (k : A → M B) st e st1 :
  m st = (inl e, st1) → and_then m k st = (inl e, st1).
Proof. unfold and_then. by intros ->. Qed.

(** ** The store only grows *)

Lemma server_le_refl obj : server_le obj obj.
Proof. by repeat split. Qed.

Lemma server_le_trans a b c : server_le a b → server_le b c → server_le a c.
Proof.
  intros (?&?&?&?&?&?&Hab) (?&?&?&?&?&?&Hbc).
  repeat split; try congruence. intros d x Hd. by apply Hbc, Hab.
Qed.

Lemma extends_refl st : extends st st.
Proof. intros l obj H. exists obj. split; [done | apply server_le_refl]. Qed.

Lemma extends_trans st1 st2 st3 :
  extends st1 st2 → extends st2 st3 → extends st1 st3.
Proof.
  intros H12 H23 l a Ha.
  destruct (H12 l a Ha) as (b & Hb & Hab).
  destruct (H23 l b Hb) as (c & Hc & Hbc).
  exists c. split; [done | by eapply server_le_trans].
Qed.

Lemma extends_same_servers st st' :
  servers st' = servers st → extends st st'.
Proof.
  intros E l obj H. exists obj. rewrite E. split; [done | apply server_le_refl].
Qed.

Section ServerFacts.

Variable drv : Driver.

(** The effect of a connection routine: on success one new handle of the
    routine's class for the given database, on failure nothing. *)
Lemma call_create_engine_inr obj d st e st' :
  call_create_engine drv obj d st = (inr e, st') →
  st' = mkState (servers st) (S (next_id st))
          (trace st ++ [EngineCreated e]) (stdout st)
  ∧ eng_id e = next_id st
  ∧ url_database (eng_url e) = d
  ∧ url_host (eng_url e) = host obj
  ∧ eng_class e = match _create_engine obj with
                  | Create_async_postgres => AsyncEngine
                  | _ => Engine
                  end.
Proof.
  unfold call_create_engine, _create_mssql, _create_postgres,
    _create_async_postgres, URL_create, create_engine, create_async_engine,
    and_then, ret, raise.
  destruct (_create_engine obj); try discriminate;
    match goal with |- context [match ?o with Some _ => _ | None => _ end] =>
      destruct o end;
    try discriminate; intros [= <- <-]; by repeat split.
Qed.

Lemma call_create_engine_inl obj d st x st' :
  call_create_engine drv obj d st = (inl x, st') →
  st' = st
  ∧ match _create_engine obj with
    | Create_mssql => x = TypeError
    | _ => ∃ msg, x = DriverError msg
    end.
Proof.
  unfold call_create_engine, _create_mssql, _create_postgres,
    _create_async_postgres, URL_create, create_engine, create_async_engine,
    and_then, ret, raise.
  destruct (_create_engine obj); [by intros [= <- <-]| |];
    match goal with |- context [match ?o with Some _ => _ | None => _ end] =>
      destruct o as [msg|] end;
    try discriminate; intros [= <- <-]; (split; [done | by exists msg]).
Qed.

(** The routine of [_create_mssql] never gets as far as the driver. *)
Lemma call_create_engine_mssql obj d st :
  _create_engine obj = Create_mssql →
  call_create_engine drv obj d st = (inl TypeError, st).
Proof. unfold call_create_engine. by intros ->. Qed.

Lemma _create_eq l obj d st :
  servers st !! l = Some obj →
  _create drv l d st =
    match call_create_engine drv obj d st with
    | (inl x, st1) => (inl x, st1)
    | (inr e, st1) =>
        (inr (e, factory_of e),
         mkState
           (<[l := set_databases (<[d := (e, factory_of e)]> (databases obj)) obj]>
              (servers st1))
           (next_id st1) (trace st1) (stdout st1))
    end.
Proof.
  intros H. unfold _create, and_then, read_server. rewrite H.
  by destruct (call_create_engine drv obj d st) as [[x|e] st1].
Qed.

Lemma _get_or_create_eq l obj d st :
  servers st !! l = Some obj →
  _get_or_create drv l d st =
    match databases obj !! d with
    | Some cached => (inr cached, st)
    | None => _create drv l d st
    end.
Proof.
  intros H. unfold _get_or_create, and_then, read_server. rewrite H.
  by destruct (databases obj !! d).
Qed.

Lemma get_session_maker_eq l obj d st :
  servers st !! l = Some obj →
  get_session_maker drv l d st =
    match _get_or_create drv l (effective_database obj d) st with
    | (inl x, st1) => (inl x, st1)
    | (inr cached, st1) => (inr (snd cached), st1)
    end.
Proof.
  intros H. unfold get_session_maker, and_then, read_server. rewrite H.
  fold (effective_database obj d).
  by destruct (_get_or_create drv l (effective_database obj d) st) as [[x|c] st1].
Qed.

Lemma get_session_maker_dangling l d st :
  servers st !! l = None →
  get_session_maker drv l d st = (inl InvalidReference, st).
Proof.
  intros H. unfold get_session_maker, and_then, read_server. by rewrite H.
Qed.

Lemma _get_or_create_dangling l d st :
  servers st !! l = None →
  _get_or_create drv l d st = (inl InvalidReference, st).
Proof.
  intros H. unfold _get_or_create, and_then, read_server. by rewrite H.
Qed.

End ServerFacts.

(** A loop whose body keeps a preorder on stores keeps it. *)
Section Loops.

Context {A B : Type} (P : State → State → Prop).
Hypothesis P_refl : ∀ st, P st st.
Hypothesis P_trans : ∀ st1 st2 st3, P st1 st2 → P st2 st3 → P st1 st3.

Lemma and_then_keeps {X Y} (m : M X) (k : X → M Y) st r st' :
  (∀ r1 st1, m st = (r1, st1) → P st st1) →
  (∀ x st1 r2 st2, k x st1 = (r2, st2) → P st1 st2) →
  and_then m k st = (r, st') → P st st'.
Proof.
  intros Hm Hk. unfold and_then.
  destruct (m st) as [[e|x] st1] eqn:E.
  - intros [= <- <-]. by eapply Hm.
  - intros H. eapply P_trans; [by eapply Hm | by eapply Hk].
Qed.

Lemma for_each_keeps (f : A → M B) :
  (∀ x st r st', f x st = (r, st') → P st st') →
  ∀ l st r st', for_each f l st = (r, st') → P st st'.
Proof.
  intros Hf. induction l as [|x l IH]; intros st r st'; simpl.
  - intros [= <- <-]. apply P_refl.
  - apply and_then_keeps; [intros; by eapply Hf|].
    intros y st1 r2 st2. apply and_then_keeps; [intros; by eapply IH|].
    intros ys st3 r3 st4 [= <- <-]. apply P_refl.
Qed.

Lemma for_keeps (f : A → M unit) :
  (∀ x st r st', f x st = (r, st') → P st st') →
  ∀ l st r st', for_ f l st = (r, st') → P st st'.
Proof.
  intros Hf. induction l as [|x l IH]; intros st r st'; simpl.
  - intros [= <- <-]. apply P_refl.
  - apply and_then_keeps; [intros; by eapply Hf|].
    intros; by eapply IH.
Qed.

End Loops.

Section Growth.

Variable drv : Driver.

Lemma _get_or_create_extends l d st r st' :
  _get_or_create drv l d st = (r, st') → extends st st'.
Proof.
  destruct (servers st !! l) as [obj|] eqn:Hl.
  2:{ rewrite _get_or_create_dangling by done. intros [= <- <-].
      apply extends_refl. }
  rewrite (_get_or_create_eq drv l obj) by done.
  destruct (databases obj !! d) as [cached|] eqn:Hd.
  { intros [= <- <-]. apply extends_refl. }
  rewrite (_create_eq drv l obj) by done.
  destruct (call_create_engine drv obj d st) as [[x|e] st1] eqn:Hc.
  { apply call_create_engine_inl in Hc as [-> _]. intros [= <- <-].
    apply extends_refl. }
  apply call_create_engine_inr in Hc as (-> & _). simpl.
  intros [= <- <-] l' a Ha. simpl.
  destruct (decide (l' = l)) as [->|Hne].
  - rewrite lookup_insert_eq. eexists. split; [done|].
    assert (a = obj) as -> by congruence.
    repeat split; simpl; try done.
    intros d' c Hd'. rewrite lookup_insert_ne; [done | congruence].
  - rewrite lookup_insert_ne by done. exists a.
    split; [done | apply server_le_refl].
Qed.

Lemma get_session_maker_extends l d st r st' :
  get_session_maker drv l d st = (r, st') → extends st st'.
Proof.
  destruct (servers st !! l) as [obj|] eqn:Hl.
  2:{ rewrite get_session_maker_dangling by done. intros [= <- <-].
      apply extends_refl. }
  rewrite (get_session_maker_eq drv l obj) by done.
  destruct (_get_or_create drv l (effective_database obj d) st)
    as [[x|c] st1] eqn:Hg;
    intros [= <- <-]; by eapply _get_or_create_extends.
Qed.

Lemma get_pure m h st r st' : get m h st = (r, st') → st' = st.
Proof.
  unfold get, getitem, ret, raise.
  repeat (case_match; simplify_eq); by intros [= <- <-].
Qed.

Lemma request_extends m h d st r st' :
  request drv m h d st = (r, st') → extends st st'.
Proof.
  unfold request.
  apply (and_then_keeps extends extends_trans).
  - intros r1 st1 H. apply get_pure in H as ->. apply extends_refl.
  - intros. by eapply get_session_maker_extends.
Qed.

Lemma host_and_database_pure ref st r st' :
  host_and_database ref st = (r, st') → st' = st.
Proof.
  unfold host_and_database, ret, raise.
  repeat (case_match; simplify_eq); by intros [= <- <-].
Qed.

Lemma DatabaseContext_init_extends m use st r st' :
  DatabaseContext_init drv m use st = (r, st') → extends st st'.
Proof.
  unfold DatabaseContext_init.
  apply (and_then_keeps extends extends_trans).
  2:{ intros x st1 r2 st2 [= <- <-]. apply extends_refl. }
  intros r1 st1. destruct (use_is_empty use).
  - apply (and_then_keeps extends extends_trans).
    + intros. by eapply request_extends.
    + intros x st2 r2 st3 [= <- <-]. apply extends_refl.
  - apply (for_each_keeps extends extends_refl extends_trans).
    intros ref st2 r2 st3. unfold session_maker_for.
    apply (and_then_keeps extends extends_trans).
    + intros r3 st4 H. apply host_and_database_pure in H as ->.
      apply extends_refl.
    + intros. by eapply request_extends.
Qed.

Lemma DatabaseServer_init_eq h u p n k dflt st :
  DatabaseServer_init drv h u p n k dflt st =
    match find_create ("_create_" ++ k) with
    | None => (inl AttributeError, st)
    | Some create =>
        let self := fresh (dom (servers st)) in
        let obj := mkServer h n u p create ∅ dflt in
        let st1 := mkState (<[self := obj]> (servers st)) (next_id st)
                     (trace st) (stdout st) in
        if truthy dflt then
          match _get_or_create drv self dflt st1 with
          | (inl x, st2) => (inl x, st2)
          | (inr _, st2) => (inr self, st2)
          end
        else (inr self, st1)
    end.
Proof.
  unfold DatabaseServer_init, getattr_create, and_then, new_loc, write_server.
  destruct (find_create ("_create_" ++ k)) as [create|]; [|done]. simpl.
  destruct (truthy dflt); [|done].
  by destruct (_get_or_create drv _ dflt _) as [[x|c] st2].
Qed.

Lemma new_object_extends st obj :
  extends st
    (mkState (<[fresh (dom (servers st)) := obj]> (servers st)) (next_id st)
       (trace st) (stdout st)).
Proof.
  intros l a Ha. exists a. simpl. split; [|apply server_le_refl].
  rewrite lookup_insert_ne; [done|].
  intros <-. pose proof (is_fresh (dom (servers st))) as Hf.
  apply Hf, elem_of_dom. by exists a.
Qed.

Lemma DatabaseServer_init_extends h u p n k dflt st r st' :
  DatabaseServer_init drv h u p n k dflt st = (r, st') → extends st st'.
Proof.
  rewrite DatabaseServer_init_eq.
  destruct (find_create ("_create_" ++ k)) as [create|].
  2:{ intros [= <- <-]. apply extends_refl. }
  simpl. destruct (truthy dflt).
  - destruct (_get_or_create drv _ dflt _) as [[x|c] st2] eqn:Hg;
      intros [= <- <-];
      (eapply extends_trans; [apply new_object_extends |
                              by eapply _get_or_create_extends]).
  - intros [= <- <-]. apply new_object_extends.
Qed.

Lemma same_servers_refl st : same_servers st st.
Proof. done. Qed.

Lemma same_servers_trans st1 st2 st3 :
  same_servers st1 st2 → same_servers st2 st3 → same_servers st1 st3.
Proof. unfold same_servers. congruence. Qed.

Lemma call_sessionmaker_servers sm st r st' :
  call_sessionmaker drv sm st = (r, st') → same_servers st st'.
Proof.
  unfold call_sessionmaker.
  destruct (takes_session_keywords (class_ sm)); simpl;
    [|by intros [= <- <-]].
  destruct (drv_session drv (next_id st) sm); by intros [= <- <-].
Qed.

Lemma close_session_servers s st r st' :
  close_session drv s st = (r, st') → same_servers st st'.
Proof.
  unfold close_session, getattr_close, sync_to_async_call, run_close,
    and_then, print, log, ret, raise. simpl.
  destruct (close_attr (sess_class s)) as [[]|]; simpl;
    try destruct (drv_close drv s); by intros [= <- <-].
Qed.

Lemma aenter_servers ctx st r st' :
  __aenter__ drv ctx st = (r, st') → same_servers st st'.
Proof.
  unfold __aenter__.
  apply (and_then_keeps same_servers same_servers_trans).
  - intros r1 st1.
    apply (for_each_keeps same_servers same_servers_refl same_servers_trans).
    apply call_sessionmaker_servers.
  - intros opened st1 r2 st2. unfold and_then, print, ret.
    destruct opened as [|s [|]]; by intros [= <- <-].
Qed.

Lemma aexit_servers ctx st r st' :
  __aexit__ drv ctx st = (r, st') → same_servers st st'.
Proof.
  unfold __aexit__. destruct (sessions ctx) as [[|s ss]|];
    try by intros [= <- <-].
  apply (for_keeps same_servers same_servers_refl same_servers_trans).
  apply close_session_servers.
Qed.

Lemma later_extends st st' : later drv st st' → extends st st'.
Proof.
  induction 1 as [st | st l d r st1 st2 H _ IH
                  | st h u p n k dflt r st1 st2 H _ IH
                  | st m use r st1 st2 H _ IH
                  | st ctx r st1 st2 H _ IH
                  | st ctx r st1 st2 H _ IH].
  - apply extends_refl.
  - eapply extends_trans; [by eapply get_session_maker_extends | done].
  - eapply extends_trans; [by eapply DatabaseServer_init_extends | done].
  - eapply extends_trans; [by eapply DatabaseContext_init_extends | done].
  - eapply extends_trans; [|done].
    apply extends_same_servers. by eapply aenter_servers.
  - eapply extends_trans; [|done].
    apply extends_same_servers. by eapply aexit_servers.
Qed.

(** What a successful lookup leaves in the cache. *)
Lemma _get_or_create_cached l d st cached st' :
  _get_or_create drv l d st = (inr cached, st') →
  ∃ obj, servers st' !! l = Some obj ∧ databases obj !! d = Some cached.
Proof.
  destruct (servers st !! l) as [obj|] eqn:Hl.
  2:{ by rewrite _get_or_create_dangling. }
  rewrite (_get_or_create_eq drv l obj) by done.
  destruct (databases obj !! d) as [c|] eqn:Hd.
  { intros [= <- <-]. by exists obj. }
  rewrite (_create_eq drv l obj) by done.
  destruct (call_create_engine drv obj d st) as [[x|e] st1]; [done|].
  intros [= <- <-]. simpl. eexists. rewrite lookup_insert_eq.
  split; [done|]. simpl. by rewrite lookup_insert_eq.
Qed.

Lemma _get_or_create_hit l obj d cached st :
  servers st !! l = Some obj → databases obj !! d = Some cached →
  _get_or_create drv l d st = (inr cached, st).
Proof. intros Hl Hd. rewrite (_get_or_create_eq drv l obj) by done. by rewrite Hd. Qed.

End Growth.

(** ** Cache identity *)

Lemma get_any_state m h st st' :
  fst (get m h st') = fst (get m h st) ∧ snd (get m h st) = st.
Proof.
  unfold get, getitem, ret, raise. by repeat case_match.
Qed.

Lemma effective_database_le obj other d :
  server_le obj other →
  effective_database other d = effective_database obj d.
Proof.
  intros (_&_&_&_&_&Hd&_). unfold effective_database. by rewrite Hd.
Qed.

(** C4: a second request to a Server Registry for the same database name,
    made at any later point, returns the (connection handle, session
    factory) pair the first request cached and creates nothing: the store,
    and with it the list of handles created, is left as it was.  The same
    holds for the request made through a Connection Manager that resolves
    the host to that registry. *)
Theorem session_factory_cached_once drv l name sm st st1 st2 :
  get_session_maker drv l name st = (inr sm, st1) →
  later drv st1 st2 →
  get_session_maker drv l name st2 = (inr sm, st2)
  ∧ (∃ obj engine,
       servers st !! l = Some obj
       ∧ _get_or_create drv l (effective_database obj name) st
           = (inr (engine, sm), st1)
       ∧ _get_or_create drv l (effective_database obj name) st2
           = (inr (engine, sm), st2))
  ∧ (∀ m host,
       fst (get m host st) = inr l →
       request drv m host name st = (inr sm, st1)
       ∧ request drv m host name st2 = (inr sm, st2)).
Proof.
  intros Hfirst Hlater.
  destruct (servers st !! l) as [obj|] eqn:Hl.
  2:{ by rewrite get_session_maker_dangling in Hfirst. }
  pose proof Hfirst as Hfirst'.
  rewrite (get_session_maker_eq drv l obj) in Hfirst by done.
  destruct (_get_or_create drv l (effective_database obj name) st)
    as [[x|[engine sm']] st1'] eqn:Hg; [done|].
  simpl in Hfirst. injection Hfirst as -> ->.
  destruct (_get_or_create_cached drv _ _ _ _ _ Hg) as (obj1 & Hl1 & Hc1).
  destruct (_get_or_create_extends drv _ _ _ _ _ Hg l obj Hl)
    as (obj1' & Hl1' & Hle1).
  assert (obj1' = obj1) as -> by congruence.
  destruct (later_extends drv _ _ Hlater l obj1 Hl1) as (obj2 & Hl2 & Hle2).
  assert (effective_database obj2 name = effective_database obj name) as Hkey.
  { rewrite (effective_database_le obj1 obj2) by done.
    by apply effective_database_le. }
  assert (databases obj2 !! effective_database obj name = Some (engine, sm))
    as Hc2.
  { destruct Hle2 as (_&_&_&_&_&_&Hsub). by apply Hsub. }
  assert (_get_or_create drv l (effective_database obj name) st2
          = (inr (engine, sm), st2)) as Hg2.
  { by apply (_get_or_create_hit drv l obj2). }
  assert (get_session_maker drv l name st2 = (inr sm, st2)) as Hsecond.
  { rewrite (get_session_maker_eq drv l obj2) by done.
    by rewrite Hkey, Hg2. }
  split; [done|]. split.
  { by exists obj, engine. }
  intros m host Hget. unfold request, and_then.
  pose proof (get_any_state m host st st2) as [E2 S1].
  pose proof (get_any_state m host st2 st2) as [_ S2].
  destruct (get m host st) as [r1 s1] eqn:G1.
  destruct (get m host st2) as [r2 s2] eqn:G2.
  simpl in *. subst. by rewrite Hfirst', Hsecond.
Qed.

(** ** What a request does to a registry *)

(** A request either finds the pair in the cache and changes nothing, or
    asks the driver for one handle, which it caches, or fails with the
    driver's exception and changes nothing. *)
Lemma get_session_maker_effect drv l obj name r st st' :
  servers st !! l = Some obj →
  get_session_maker drv l name st = (r, st') →
  match databases obj !! effective_database obj name with
  | Some cached => r = inr (snd cached) ∧ st' = st
  | None =>
      (∃ x, r = inl x ∧ st' = st
            ∧ (x = TypeError ∨ ∃ msg, x = DriverError msg))
      ∨ (∃ e, r = inr (factory_of e)
              ∧ call_create_engine drv obj (effective_database obj name) st
                  = (inr e, mkState (servers st) (S (next_id st))
                              (trace st ++ [EngineCreated e]) (stdout st))
              ∧ st' = mkState
                        (<[l := set_databases
                                  (<[effective_database obj name := (e, factory_of e)]>
                                     (databases obj)) obj]> (servers st))
                        (S (next_id st)) (trace st ++ [EngineCreated e])
                        (stdout st))
  end.
Proof.
  intros Hl. rewrite (get_session_maker_eq drv l obj) by done.
  rewrite (_get_or_create_eq drv l obj) by done.
  destruct (databases obj !! effective_database obj name) as [c|] eqn:Hd.
  { by intros [= <- <-]. }
  rewrite (_create_eq drv l obj) by done.
  destruct (call_create_engine drv obj _ st) as [[x|e] st1] eqn:Hc.
  - apply call_create_engine_inl in Hc as [-> Hx].
    intros [= <- <-]. left. exists x. split; [done|]. split; [done|].
    destruct (_create_engine obj); [by left | by right | by right].
  - pose proof Hc as Hc'. apply call_create_engine_inr in Hc' as (-> & _).
    intros [= <- <-]. right. by exists e.
Qed.

Lemma find_create_known k :
  find_create ("_create_" ++ k) =
    if String.eqb k "mssql" then Some Create_mssql
    else if String.eqb k "postgres" then Some Create_postgres
    else if String.eqb k "async_postgres" then Some Create_async_postgres
    else None.
Proof. reflexivity. Qed.

(** ** Construction of a registry *)

(** C7, as stated, fails: [DatabaseServer(..., engine="oracle")] raises
    [AttributeError], which is not [ConfigurationError]. *)
Lemma unknown_engine_is_not_ConfigurationError :
  oracle_server empty_state = (inl AttributeError, empty_state)
  ∧ fst (oracle_server empty_state) ≠ inl ConfigurationError.
Proof. split; [reflexivity | discriminate]. Qed.

(** C7, amended: constructing a Server Registry with an engine identifier
    other than [mssql], [postgres] and [async_postgres] fails at
    construction, before any object or connection handle is made, with the
    [AttributeError] of the attribute lookup. *)
Theorem unknown_engine_fails_at_construction drv h u p n k dflt st :
  k ≠ "mssql" → k ≠ "postgres" → k ≠ "async_postgres" →
  DatabaseServer_init drv h u p n k dflt st = (inl AttributeError, st).
Proof.
  intros H1 H2 H3. rewrite DatabaseServer_init_eq, find_create_known.
  apply String.eqb_neq in H1, H2, H3. by rewrite H1, H2, H3.
Qed.

Lemma unknown_engine_fails_at_construction_witness :
  DatabaseServer_init quiet "db-a" "app" "secret" 5432 "oracle" None empty_state
  = (inl AttributeError, empty_state).
Proof.
  apply unknown_engine_fails_at_construction; discriminate.
Defined.

(** ** Requests without a database name *)

(** C8, as stated, fails: on a registry without default database a request
    that names no database succeeds, with a handle whose database is
    [None]. *)
Lemma no_default_request_succeeds :
  ∃ sm st, no_default_request empty_state = (inr sm, st)
           ∧ url_database (eng_url (bind sm)) = None
           ∧ fst (no_default_request empty_state) ≠ inl ConfigurationError.
Proof.
  eexists _, _. split; [vm_compute; reflexivity|].
  split; [reflexivity | vm_compute; discriminate].
Qed.

(** C8, amended: a request whose database name is [None] or empty is the
    request for the registry's [default_database], whatever that is: the
    configured default when there is one, and the key [None] (or the empty
    name) when there is none.  It does not raise [ConfigurationError]. *)
Theorem request_without_name_uses_default drv l obj name st :
  servers st !! l = Some obj →
  truthy name = false →
  get_session_maker drv l name st
    = get_session_maker drv l (default_database obj) st
  ∧ get_session_maker drv l name st
    = match _get_or_create drv l (default_database obj) st with
      | (inl x, st1) => (inl x, st1)
      | (inr cached, st1) => (inr (snd cached), st1)
      end
  ∧ fst (get_session_maker drv l name st) ≠ inl ConfigurationError.
Proof.
  intros Hl Hname.
  assert (effective_database obj name = default_database obj) as Hkey.
  { unfold effective_database. by rewrite Hname. }
  assert (effective_database obj (default_database obj)
          = default_database obj) as Hkey'.
  { unfold effective_database. by destruct (truthy (default_database obj)). }
  split; [|split].
  - rewrite !(get_session_maker_eq drv l obj) by done. by rewrite Hkey, Hkey'.
  - rewrite (get_session_maker_eq drv l obj) by done. by rewrite Hkey.
  - destruct (get_session_maker drv l name st) as [r st'] eqn:Hg.
    simpl. intros ->.
    pose proof (get_session_maker_effect drv l obj name _ st st' Hl Hg) as He.
    destruct (databases obj !! effective_database obj name).
    + by destruct He.
    + by destruct He as [(x & [= <-] & _ & [? | [msg ?]]) | (e & [=] & _)].
Qed.

(** ** Lazy creation *)

(** What a successful construction leaves behind: a new object with the
    given fields, and a cache that is empty, or holds the default database
    when one was given. *)
Lemma DatabaseServer_init_inr drv h u p n k dflt st l st1 :
  DatabaseServer_init drv h u p n k dflt st = (inr l, st1) →
  ∃ obj,
    servers st !! l = None
    ∧ servers st1 !! l = Some obj
    ∧ find_create ("_create_" ++ k) = Some (_create_engine obj)
    ∧ host obj = h ∧ default_database obj = dflt
    ∧ stdout st1 = stdout st
    ∧ if truthy dflt then
        ∃ e, trace st1 = trace st ++ [EngineCreated e]
             ∧ url_database (eng_url e) = dflt
             ∧ databases obj = {[dflt := (e, factory_of e)]}
      else trace st1 = trace st ∧ next_id st1 = next_id st
           ∧ databases obj = ∅.
Proof.
  rewrite DatabaseServer_init_eq.
  destruct (find_create ("_create_" ++ k)) as [create|] eqn:Hk; [|done].
  simpl.
  assert (servers st !! fresh (dom (servers st)) = None) as Hfresh.
  { apply not_elem_of_dom, is_fresh. }
  destruct (truthy dflt) eqn:Ht.
  - set (obj0 := mkServer h n u p create ∅ dflt).
    set (st0 := mkState _ _ _ _).
    assert (servers st0 !! fresh (dom (servers st)) = Some obj0) as Hl0.
    { unfold st0. simpl. by rewrite lookup_insert_eq. }
    rewrite (_get_or_create_eq drv _ obj0) by done.
    replace (databases obj0 !! dflt) with (@None (EngineObj * sessionmaker))
      by (unfold obj0; simpl; by rewrite lookup_empty).
    rewrite (_create_eq drv _ obj0) by done.
    destruct (call_create_engine drv obj0 dflt st0) as [[x|e] st2] eqn:Hc;
      [done|].
    apply call_create_engine_inr in Hc as (-> & _ & Hdb & _).
    intros [= <- <-]. simpl. eexists. rewrite lookup_insert_eq.
    split; [done|]. split; [done|]. simpl.
    repeat split; try done. exists e. repeat split; try done.
  - intros [= <- <-]. simpl. eexists. rewrite lookup_insert_eq.
    split; [done|]. by split.
Qed.

(** C9, as stated, fails: constructing a registry with a default database
    creates the connection handle for that database at once. *)
Lemma construction_with_default_creates_handle :
  ∃ l st e, orders_server empty_state = (inr l, st)
            ∧ engines_created (trace st) = [e]
            ∧ url_database (eng_url e) = Some "orders".
Proof. eexists _, _, _. split; [vm_compute; reflexivity|]. by split. Qed.

(** C9, amended: constructing a registry without default database (or with
    an empty one) creates no connection handle; constructing it with a
    default database creates the handle of that database, and only that one,
    at once.  At any later point the handle of a database name is created by
    the first request for that name: a request whose name is in the cache
    changes nothing, and a request whose name is not either succeeds and
    creates exactly one handle, for that name, or fails and changes
    nothing. *)
Theorem handles_created_on_demand drv h u p n k dflt st l st1 :
  DatabaseServer_init drv h u p n k dflt st = (inr l, st1) →
  ∃ obj,
    servers st1 !! l = Some obj
    ∧ (if truthy dflt then
         ∃ e, trace st1 = trace st ++ [EngineCreated e]
              ∧ url_database (eng_url e) = dflt
              ∧ databases obj = {[dflt := (e, factory_of e)]}
       else trace st1 = trace st ∧ databases obj = ∅)
    ∧ ∀ st2 name r st3,
        later drv st1 st2 →
        get_session_maker drv l name st2 = (r, st3) →
        ∃ obj2,
          servers st2 !! l = Some obj2
          ∧ match databases obj2 !! effective_database obj name with
            | Some cached => r = inr (snd cached) ∧ st3 = st2
            | None =>
                (∃ x, r = inl x ∧ st3 = st2
                      ∧ (x = TypeError ∨ ∃ msg, x = DriverError msg))
                ∨ (∃ e, r = inr (factory_of e)
                        ∧ trace st3 = trace st2 ++ [EngineCreated e]
                        ∧ url_database (eng_url e)
                          = effective_database obj name)
            end.
Proof.
  intros Hinit.
  destruct (DatabaseServer_init_inr _ _ _ _ _ _ _ _ _ _ Hinit)
    as (obj & _ & Hl & _ & _ & _ & _ & Hcache).
  exists obj. split; [done|]. split.
  { destruct (truthy dflt); [done|]. by destruct Hcache as (? & _ & ?). }
  intros st2 name r st3 Hlater Hreq.
  destruct (later_extends drv _ _ Hlater l obj Hl) as (obj2 & Hl2 & Hle).
  exists obj2. split; [done|].
  pose proof (get_session_maker_effect drv l obj2 name r st2 st3 Hl2 Hreq) as He.
  rewrite (effective_database_le obj obj2) in He by done.
  destruct (databases obj2 !! effective_database obj name); [done|].
  destruct He as [He | (e & -> & Hc & ->)]; [by left|].
  right. exists e. apply call_create_engine_inr in Hc as (_ & _ & Hdb & _).
  by repeat split.
Qed.

(** ** Entering a scope *)

Lemma call_sessionmaker_inr drv f st s st' :
  call_sessionmaker drv f st = (inr s, st') →
  made_by f s ∧ sess_id s = next_id st
  ∧ st' = mkState (servers st) (S (next_id st))
            (trace st ++ [SessionOpened s]) (stdout st).
Proof.
  unfold call_sessionmaker.
  destruct (takes_session_keywords (class_ f)); simpl; [|done].
  destruct (drv_session drv (next_id st) f); [done|].
  by intros [= <- <-].
Qed.

Lemma call_sessionmaker_inl drv f st x st' :
  call_sessionmaker drv f st = (inl x, st') →
  st' = st
  ∧ ((x = TypeError ∧ takes_session_keywords (class_ f) = false)
     ∨ ∃ msg, x = DriverError msg
              ∧ drv_session drv (next_id st) f = Some msg).
Proof.
  unfold call_sessionmaker.
  destruct (takes_session_keywords (class_ f)); simpl.
  - destruct (drv_session drv (next_id st) f) as [msg|]; [|done].
    intros [= <- <-]. split; [done | right; by exists msg].
  - intros [= <- <-]. split; [done | by left].
Qed.

Lemma open_all_made_by drv fs st ss st' :
  for_each (call_sessionmaker drv) fs st = (inr ss, st') →
  Forall2 made_by fs ss.
Proof.
  revert st ss. induction fs as [|f fs IH]; intros st ss; simpl.
  - intros [= <-]. constructor.
  - intros H. apply and_then_inr in H as (s & st1 & Hs & H).
    apply and_then_inr in H as (ss' & st2 & Hss & [= <- <-]).
    constructor; [by apply call_sessionmaker_inr in Hs as [? _] | by eapply IH].
Qed.

Lemma aenter_inr drv ctx st ctx' v st' :
  __aenter__ drv ctx st = (inr (ctx', v), st') →
  ∃ ss st1,
    for_each (call_sessionmaker drv) (session_makers ctx) st = (inr ss, st1)
    ∧ ctx' = mkContext (session_makers ctx) (Some ss)
    ∧ v = match ss with [s] => One s | _ => Several ss end
    ∧ servers st' = servers st1 ∧ trace st' = trace st1
    ∧ next_id st' = next_id st1.
Proof.
  unfold __aenter__. intros H.
  apply and_then_inr in H as (ss & st1 & Hss & H).
  exists ss, st1. split; [done|].
  destruct ss as [|s [|s' ss]]; unfold and_then, print, ret in H;
    simpl in H; by injection H as <- <- <-.
Qed.


(** ** Resolution of references *)

Lemma effective_database_unnamed obj name :
  truthy name = false → effective_database obj name = default_database obj.
Proof. unfold effective_database. by intros ->. Qed.

Lemma effective_database_default obj :
  effective_database obj (default_database obj) = default_database obj.
Proof. unfold effective_database. by destruct (truthy (default_database obj)). Qed.

Lemma get_named m h l st :
  h ≠ "" → database_servers m !! h = Some l → get m (Some h) st = (inr l, st).
Proof.
  intros Hh Hl. unfold get, getitem. destruct h as [|a h]; [done|].
  simpl. by rewrite Hl.
Qed.

Lemma get_default m host h l st :
  truthy host = false →
  default_server m = Some h → database_servers m !! h = Some l →
  get m host st = (inr l, st).
Proof.
  intros Hhost Hd Hl. unfold get, getitem. rewrite Hhost. simpl.
  by rewrite Hd, Hl.
Qed.

Lemma request_eq drv m host d l st :
  get m host st = (inr l, st) →
  request drv m host d st = get_session_maker drv l d st.
Proof. intros H. unfold request. by rewrite (and_then_ok _ _ _ _ _ H). Qed.

Lemma get_session_maker_unnamed drv l obj name st :
  servers st !! l = Some obj → truthy name = false →
  get_session_maker drv l name st
  = get_session_maker drv l (default_database obj) st.
Proof.
  intros Hl Hn. rewrite !(get_session_maker_eq drv l obj) by done.
  by rewrite effective_database_unnamed, effective_database_default.
Qed.

(** C5, as stated, fails: in a scope the reference ["db-b"], a bare string,
    is resolved to the default server [db-a] and its default database
    [orders]. *)
Lemma bare_token_goes_to_default_server :
  ∃ ctx st sm, bare_token_scope empty_state = (inr ctx, st)
               ∧ session_makers ctx = [sm]
               ∧ url_host (eng_url (bind sm)) = "db-a"
               ∧ url_database (eng_url (bind sm)) = Some "orders".
Proof. eexists _, _, _. split; [vm_compute; reflexivity|]. by repeat split. Qed.

(** The tuple [("db-b",)] is resolved to [db-b] and its default database. *)
Lemma tuple_token_goes_to_named_host :
  ∃ ctx st sm, tuple_token_scope empty_state = (inr ctx, st)
               ∧ session_makers ctx = [sm]
               ∧ url_host (eng_url (bind sm)) = "db-b"
               ∧ url_database (eng_url (bind sm)) = Some "billing".
Proof. eexists _, _, _. split; [vm_compute; reflexivity|]. by repeat split. Qed.

(** C5, amended: a reference given as a tuple [(host,)] (or as any tuple
    whose length is not two and whose first item is a non-empty host) is
    resolved to the registry of that host and to that registry's default
    database.  A reference that is not a tuple, such as the bare string
    ["db-a"], is resolved like an empty reference list: to the manager's
    default server and its default database, whatever the string says. *)
Theorem tuple_token_resolves_to_named_host drv m h rest l obj st :
  h ≠ "" → length rest ≠ 1%nat →
  database_servers m !! h = Some l →
  servers st !! l = Some obj →
  session_maker_for drv m (RefTuple (Some h :: rest)) st
  = get_session_maker drv l (default_database obj) st
  ∧ DatabaseContext_init drv m (Some [RefTuple (Some h :: rest)]) st
    = match _get_or_create drv l (default_database obj) st with
      | (inl x, st1) => (inl x, st1)
      | (inr cached, st1) => (inr (mkContext [snd cached] None), st1)
      end
  ∧ ∀ token,
      session_maker_for drv m (RefStr token) st = request drv m None None st
      ∧ DatabaseContext_init drv m (Some [RefStr token]) st
        = DatabaseContext_init drv m None st.
Proof.
  intros Hh Hrest Hm Hl.
  assert (session_maker_for drv m (RefTuple (Some h :: rest)) st
          = get_session_maker drv l (default_database obj) st) as Hfor.
  { assert (host_and_database (RefTuple (Some h :: rest)) st
            = (inr (Some h, None), st)) as Hhd.
    { by destruct rest as [|x [|y rest]]. }
    unfold session_maker_for. rewrite (and_then_ok _ _ _ _ _ Hhd). simpl.
    rewrite (request_eq drv m (Some h) None l) by by apply get_named.
    by apply get_session_maker_unnamed. }
  split; [done|]. split.
  - unfold DatabaseContext_init. simpl. unfold and_then at 1 2.
    rewrite Hfor, (get_session_maker_eq drv l obj) by done.
    rewrite effective_database_default.
    by destruct (_get_or_create drv l (default_database obj) st)
      as [[x|c] st1].
  - intros token.
    assert (session_maker_for drv m (RefStr token) = request drv m None None)
      as Hbare by reflexivity.
    split; [by rewrite Hbare|].
    unfold DatabaseContext_init. simpl. rewrite Hbare.
    unfold and_then.
    by destruct (request drv m None None st) as [[x|c] st1].
Qed.



(** ** Failure while entering *)

Lemma open_all_inl drv fs st x st' :
  for_each (call_sessionmaker drv) fs st = (inl x, st') →
  ∃ pre f post opened,
    fs = pre ++ f :: post
    ∧ Forall2 made_by pre opened
    ∧ ((x = TypeError ∧ takes_session_keywords (class_ f) = false)
       ∨ ∃ msg, x = DriverError msg
                ∧ drv_session drv (next_id st') f = Some msg)
    ∧ servers st' = servers st ∧ stdout st' = stdout st
    ∧ trace st' = trace st ++ map SessionOpened opened.
Proof.
  revert st. induction fs as [|f fs IH]; intros st; simpl; [done|].
  intros H. apply and_then_inl in H as [H | (s & st1 & Hs & H)].
  - apply call_sessionmaker_inl in H as (-> & Hx).
    exists [], f, fs, []. simpl. rewrite app_nil_r.
    repeat split; done.
  - apply call_sessionmaker_inr in Hs as (Hmade & _ & ->).
    apply and_then_inl in H as [H | (ss & st2 & _ & [=])].
    apply IH in H
      as (pre & f' & post & opened & -> & Hpre & Hx & Hsrv & Hout & Htr).
    exists (f :: pre), f', post, (s :: opened). simpl in *.
    repeat split; try done.
    + by constructor.
    + by rewrite Htr, <- app_assoc.
Qed.

Lemma aenter_inl drv ctx st x st' :
  __aenter__ drv ctx st = (inl x, st') →
  for_each (call_sessionmaker drv) (session_makers ctx) st = (inl x, st').
Proof.
  unfold __aenter__. intros H.
  apply and_then_inl in H as [H | (ss & st1 & _ & H)]; [done|].
  destruct ss as [|s [|s' ss]]; unfold and_then, print, ret in H;
    simpl in H; discriminate.
Qed.

Lemma close_attempts_app tr1 tr2 :
  close_attempts (tr1 ++ tr2) = close_attempts tr1 ++ close_attempts tr2.
Proof. apply omap_app. Qed.

Lemma closed_sessions_app tr1 tr2 :
  closed_sessions (tr1 ++ tr2) = closed_sessions tr1 ++ closed_sessions tr2.
Proof. apply omap_app. Qed.

Lemma close_attempts_opened ss : close_attempts (map SessionOpened ss) = [].
Proof. induction ss as [|s ss IH]; [done | by simpl]. Qed.

(** C1, as stated, fails: when the factory of the second of three targets
    raises, the session opened for the first target is never closed. *)
Lemma partial_entry_leaks_first_session :
  ∃ st s,
    three_database_scope refuses_second_session empty_state
    = (inl (DriverError "connection refused"), st)
    ∧ sessions_opened (trace st) = [s]
    ∧ close_attempts (trace st) = []
    ∧ times_closed (sess_id s) (trace st) = 0%nat.
Proof. eexists _, _. split; [vm_compute; reflexivity|]. by repeat split. Qed.

(** C1, amended: when the factory of some target raises while a scope is
    entered, the exception reaches the caller at once and unchanged.  The
    sessions opened for the targets before it stay open: no [close] runs,
    the exit procedure is not run, and running it on this scope, which has
    recorded no session, does nothing. *)
Theorem failed_entry_closes_nothing {A} drv ctx (body : entered → M A) st x st' :
  sessions ctx = None →
  __aenter__ drv ctx st = (inl x, st') →
  async_with drv ctx body st = (inl x, st')
  ∧ __aexit__ drv ctx st' = (inr tt, st')
  ∧ ∃ pre f post opened,
      session_makers ctx = pre ++ f :: post
      ∧ (x = TypeError ∨ ∃ msg, x = DriverError msg)
      ∧ Forall2 made_by pre opened
      ∧ trace st' = trace st ++ map SessionOpened opened
      ∧ close_attempts (trace st') = close_attempts (trace st).
Proof.
  intros Hnone Henter. split; [|split].
  - unfold async_with. by rewrite Henter.
  - unfold __aexit__. by rewrite Hnone.
  - apply aenter_inl, open_all_inl in Henter
      as (pre & f & post & opened & Hfs & Hpre & Hx & _ & _ & Htr).
    exists pre, f, post, opened. split; [done|]. split.
    { destruct Hx as [[-> _] | (msg & -> & _)]; [by left | right; by exists msg]. }
    split; [done|]. split; [done|].
    by rewrite Htr, close_attempts_app, close_attempts_opened, app_nil_r.
Qed.

(** ** Leaving a scope *)

Lemma close_session_eq drv s st :
  close_session drv s st = (close_outcome drv s, after_closes drv [s] st).
Proof.
  unfold close_session, close_outcome, after_closes, close_events,
    getattr_close, sync_to_async_call, run_close, and_then, print, log, ret,
    raise.
  simpl. destruct (close_attr (sess_class s)) as [[]|]; simpl;
    rewrite ?app_nil_r; try done.
  by destruct (drv_close drv s).
Qed.

Lemma after_closes_nil drv st : after_closes drv [] st = st.
Proof. destruct st. unfold after_closes. simpl. by rewrite !app_nil_r. Qed.

Lemma after_closes_cons drv s ss st :
  after_closes drv ss (after_closes drv [s] st) = after_closes drv (s :: ss) st.
Proof.
  unfold after_closes. simpl. by rewrite !app_nil_r, <- !app_assoc.
Qed.

(** The loop of [__aexit__] closes the sessions before the first one whose
    [close] fails, and stops there. *)
Lemma close_loop_stops drv pre s post x st :
  Forall (λ p, close_outcome drv p = inr tt) pre →
  close_outcome drv s = inl x →
  for_ (close_session drv) (pre ++ s :: post) st
  = (inl x, after_closes drv (pre ++ [s]) st).
Proof.
  intros Hpre Hs. revert st. induction Hpre as [|p pre Hp _ IH]; intros st.
  - simpl. unfold and_then. by rewrite close_session_eq, Hs.
  - simpl. unfold and_then at 1. rewrite close_session_eq, Hp, IH.
    by rewrite after_closes_cons.
Qed.

Lemma close_loop_completes drv ss st :
  Forall (λ p, close_outcome drv p = inr tt) ss →
  for_ (close_session drv) ss st = (inr tt, after_closes drv ss st).
Proof.
  intros Hss. revert st. induction Hss as [|p ss Hp _ IH]; intros st.
  - simpl. by rewrite after_closes_nil.
  - simpl. unfold and_then at 1. rewrite close_session_eq, Hp, IH.
    by rewrite after_closes_cons.
Qed.

Lemma close_events_ok drv p :
  close_outcome drv p = inr tt →
  close_events drv p = [CloseCalled ViaSyncToAsync p None].
Proof.
  unfold close_outcome, close_events.
  destruct (close_attr (sess_class p)) as [[]|]; try done.
  by destruct (drv_close drv p).
Qed.

Lemma close_events_all_ok drv ss :
  Forall (λ p, close_outcome drv p = inr tt) ss →
  concat (map (close_events drv) ss)
  = map (λ p, CloseCalled ViaSyncToAsync p None) ss.
Proof.
  induction 1 as [|p ss Hp _ IH]; [done|]. simpl.
  by rewrite close_events_ok, IH.
Qed.

Lemma closed_sessions_all ss :
  closed_sessions (map (λ p, CloseCalled ViaSyncToAsync p None) ss) = ss.
Proof. induction ss as [|s ss IH]; [done|]. simpl. by f_equal. Qed.

Lemma close_attempts_all ss :
  close_attempts (map (λ p, CloseCalled ViaSyncToAsync p None) ss) = ss.
Proof. induction ss as [|s ss IH]; [done|]. simpl. by f_equal. Qed.

Lemma close_events_failed drv s x :
  close_outcome drv s = inl x →
  closed_sessions (close_events drv s) = []
  ∧ (close_attempts (close_events drv s) = [s]
     ∨ close_attempts (close_events drv s) = [])
  ∧ ∀ causes, x ≠ CloseError causes.
Proof.
  unfold close_outcome, close_events.
  destruct (close_attr (sess_class s)) as [[]|]; try (intros [= <-]; by auto).
  destruct (drv_close drv s); intros [= <-]. simpl. by auto.
Qed.

Lemma aexit_eq drv ctx ss :
  sessions ctx = Some ss → __aexit__ drv ctx = for_ (close_session drv) ss.
Proof. unfold __aexit__. intros ->. by destruct ss. Qed.

Lemma close_outcome_of_run drv s r :
  (∀ st0, fst (close_session drv s st0) = r) → close_outcome drv s = r.
Proof. intros H. specialize (H empty_state). by rewrite close_session_eq in H. Qed.

(** C2, as stated, fails: when the [close] of the second of three sessions
    raises, the third session is not closed, and what reaches the caller is
    the exception of that [close], not a [CloseError]. *)
Lemma second_close_failure_skips_third :
  ∃ st s1 s2 s3,
    three_database_scope second_close_fails empty_state
    = (inl (DriverError "connection reset"), st)
    ∧ sessions_opened (trace st) = [s1; s2; s3]
    ∧ close_attempts (trace st) = [s1; s2]
    ∧ closed_sessions (trace st) = [s1]
    ∧ times_closed (sess_id s3) (trace st) = 0%nat.
Proof.
  eexists _, _, _, _. split; [vm_compute; reflexivity|]. by repeat split.
Qed.

(** C2, amended: on scope exit the sessions are closed one at a time in the
    order they were opened.  When the [close] of a session fails, the exit
    stops there: the sessions before it have been closed, the sessions after
    it are not attempted, and the exception of that [close] reaches the
    caller as it is; the scope never builds an aggregate [CloseError]. *)
Theorem first_close_failure_ends_exit drv ctx pre s post x st :
  sessions ctx = Some (pre ++ s :: post) →
  Forall (λ p, ∀ st0, fst (close_session drv p st0) = inr tt) pre →
  (∀ st0, fst (close_session drv s st0) = inl x) →
  ∃ st' evs,
    __aexit__ drv ctx st = (inl x, st')
    ∧ trace st' = trace st ++ evs
    ∧ closed_sessions evs = pre
    ∧ (close_attempts evs = pre ++ [s] ∨ close_attempts evs = pre)
    ∧ ∀ causes, x ≠ CloseError causes.
Proof.
  intros Hss Hpre Hs.
  assert (Forall (λ p, close_outcome drv p = inr tt) pre) as Hpre'.
  { eapply Forall_impl; [exact Hpre|]. intros p Hp.
    by apply close_outcome_of_run. }
  apply close_outcome_of_run in Hs.
  destruct (close_events_failed drv s x Hs) as (Hnone & Hatt & Hagg).
  exists (after_closes drv (pre ++ [s]) st),
         (concat (map (close_events drv) (pre ++ [s]))).
  rewrite (aexit_eq drv ctx _ Hss).
  split; [by apply close_loop_stops|]. split; [done|].
  rewrite map_app, concat_app, close_events_all_ok by done. simpl.
  rewrite app_nil_r, closed_sessions_app, close_attempts_app.
  rewrite closed_sessions_all, close_attempts_all, Hnone, app_nil_r.
  split; [done|]. split; [|done].
  destruct Hatt as [-> | ->]; [by left | right; by rewrite app_nil_r].
Qed.

Lemma first_close_failure_ends_exit_witness :
  ∃ st' evs,
    __aexit__ second_close_fails entered_context two_engines_state
    = (inl (DriverError "connection reset"), st')
    ∧ trace st' = trace two_engines_state ++ evs
    ∧ closed_sessions evs = [plain_session 3]
    ∧ (close_attempts evs = [plain_session 3] ++ [plain_session 4]
       ∨ close_attempts evs = [plain_session 3])
    ∧ ∀ causes, DriverError "connection reset" ≠ CloseError causes.
Proof.
  apply (first_close_failure_ends_exit second_close_fails entered_context
           [plain_session 3] (plain_session 4) [plain_session 5]).
  - reflexivity.
  - constructor; [intros st0; reflexivity | constructor].
  - intros st0. reflexivity.
Defined.

(** ** Sessions with different close contracts *)

(** The loop of [__aexit__] asks [iscoroutinefunction] about the session,
    not about its [close]: the answer is always no, so a session whose
    [close] is a coroutine function goes to [sync_to_async], which refuses
    it, and its [close] never runs. *)
Lemma coroutine_close_never_runs drv s st :
  close_attr (sess_class s) = Some true →
  close_session drv s st
  = (inl TypeError,
     mkState (servers st) (next_id st) (trace st)
       (stdout st ++ ["CLOSING SYNC SESSION"])).
Proof.
  intros H. rewrite close_session_eq.
  unfold close_outcome, after_closes. simpl. unfold close_events.
  rewrite !H. simpl. by rewrite app_nil_r.
Qed.

(** No [close] is ever awaited directly. *)
Lemma close_never_awaited drv s via s' r :
  CloseCalled via s' r ∈ close_events drv s → via = ViaSyncToAsync.
Proof.
  unfold close_events. destruct (close_attr (sess_class s)) as [[]|];
    intros H; try by apply elem_of_nil in H.
  by apply list_elem_of_singleton in H as [= -> _ _].
Qed.

(** A factory whose class does not take the keywords of a session ends
    every entry of a scope that holds it. *)
Lemma engine_class_factory_ends_entry drv ctx f st :
  f ∈ session_makers ctx →
  takes_session_keywords (class_ f) = false →
  ∃ x st', __aenter__ drv ctx st = (inl x, st').
Proof.
  intros Hin Hf. unfold __aenter__.
  assert (∃ x st', for_each (call_sessionmaker drv) (session_makers ctx) st
                   = (inl x, st')) as (x & st' & H).
  { revert st. induction (session_makers ctx) as [|g fs IH]; intros st.
    { by apply elem_of_nil in Hin. }
    simpl. destruct (call_sessionmaker drv g st) as [[y|s] st1] eqn:Hg.
    { exists y, st1. by rewrite (and_then_fail _ _ _ _ _ Hg). }
    rewrite (and_then_ok _ _ _ _ _ Hg).
    apply elem_of_cons in Hin as [->|Hin].
    - unfold call_sessionmaker in Hg. by rewrite Hf in Hg.
    - destruct (IH Hin st1) as (x & st' & H). exists x, st'.
      by rewrite (and_then_fail _ _ _ _ _ H). }
  exists x, st'. by rewrite (and_then_fail _ _ _ _ _ H).
Qed.

(** The scope on a Postgres and an asynchronous Postgres registry holds a
    [Session] factory and an [AsyncEngine] factory. *)
Lemma mixed_kinds_factories :
  ∃ ctx st f1 f2,
    mixed_kinds_context empty_state = (inr ctx, st)
    ∧ session_makers ctx = [f1; f2]
    ∧ class_ f1 = Session ∧ class_ f2 = AsyncEngine.
Proof.
  eexists _, _, _, _. split; [vm_compute; reflexivity|]. by repeat split.
Qed.


(** A scope on an [async_postgres] registry alone cannot be entered
    either. *)
Lemma async_postgres_scope_cannot_be_entered :
  ∃ st,
    async_postgres_scope empty_state = (inl TypeError, st)
    ∧ sessions_opened (trace st) = []
    ∧ close_attempts (trace st) = [].
Proof.
  eexists. split; [vm_compute; reflexivity|]. by split.
Qed.

(** ** The theorems at concrete inputs *)

Lemma two_servers_returns_sample_manager :
  two_servers empty_state = (inr sample_manager, two_servers_state).
Proof. vm_compute. reflexivity. Qed.

Lemma session_factory_cached_once_witness :
  ∃ sm,
    get_session_maker quiet 0%nat (Some "billing") orders_state
    = (inr sm, billing_state)
    ∧ get_session_maker quiet 0%nat (Some "billing") audit_state
      = (inr sm, audit_state).
Proof.
  eexists. split; [vm_compute; reflexivity|].
  refine (proj1 (session_factory_cached_once quiet 0%nat (Some "billing") _
                   orders_state billing_state audit_state _ _)).
  - vm_compute. reflexivity.
  - eapply (later_get_session_maker quiet billing_state 0%nat (Some "audit"));
      [vm_compute; reflexivity | apply later_refl].
Defined.

Lemma request_without_name_uses_default_witness :
  ∃ obj,
    servers no_default_state !! 0%nat = Some obj
    ∧ get_session_maker quiet 0%nat None no_default_state
      = get_session_maker quiet 0%nat (default_database obj) no_default_state.
Proof.
  eexists. split; [vm_compute; reflexivity|].
  refine (proj1 (request_without_name_uses_default quiet 0%nat _ None
                   no_default_state _ _)).
  - vm_compute. reflexivity.
  - reflexivity.
Defined.

Lemma handles_created_on_demand_witness :
  ∃ obj, servers orders_state !! 0%nat = Some obj
         ∧ ∃ e, trace orders_state = trace empty_state ++ [EngineCreated e]
                ∧ url_database (eng_url e) = Some "orders".
Proof.
  destruct (handles_created_on_demand quiet "db-a" "app" "secret" 5432
              "postgres" (Some "orders") empty_state 0%nat orders_state)
    as (obj & Hl & (e & Htr & Hdb & _) & _).
  - vm_compute. reflexivity.
  - exists obj. split; [exact Hl|]. exists e. by split.
Defined.


Lemma tuple_token_resolves_to_named_host_witness :
  ∃ obj,
    servers two_servers_state !! 1%nat = Some obj
    ∧ session_maker_for quiet sample_manager (RefTuple [Some "db-b"])
        two_servers_state
      = get_session_maker quiet 1%nat (default_database obj) two_servers_state.
Proof.
  eexists. split; [vm_compute; reflexivity|].
  refine (proj1 (tuple_token_resolves_to_named_host quiet sample_manager
                   "db-b" [] 1%nat _ two_servers_state _ _ _ _)).
  - discriminate.
  - simpl. lia.
  - vm_compute. reflexivity.
  - vm_compute. reflexivity.
Defined.


Lemma failed_entry_closes_nothing_witness :
  ∃ st',
    __aenter__ refuses_second_session fresh_context two_engines_state
    = (inl (DriverError "connection refused"), st')
    ∧ async_with refuses_second_session fresh_context (λ v, ret v)
        two_engines_state
      = (inl (DriverError "connection refused"), st').
Proof.
  eexists. split; [vm_compute; reflexivity|].
  refine (proj1 (failed_entry_closes_nothing refuses_second_session
                   fresh_context (λ v, ret v) two_engines_state _ _ _ _)).
  - reflexivity.
  - vm_compute. reflexivity.
Defined.

(** * Further properties *)

(** ** Registration in a manager *)

Lemma add_cons m l obj rest st :
  servers st !! l = Some obj →
  add m (l :: rest) st
  = add (mkManager (<[host obj := l]> (database_servers m)) (default_server m))
      rest st.
Proof. intros H. simpl. unfold and_then, read_server. by rewrite H. Qed.

Lemma add_dangling m l rest st :
  servers st !! l = None → add m (l :: rest) st = (inl InvalidReference, st).
Proof. intros H. simpl. unfold and_then, read_server. by rewrite H. Qed.

Lemma add_inr m ls st m' st' :
  add m ls st = (inr m', st') →
  st' = st ∧ default_server m' = default_server m.
Proof.
  revert m. induction ls as [|l rest IH]; intros m.
  - by intros [= <- <-].
  - destruct (servers st !! l) as [obj|] eqn:Hl.
    + rewrite (add_cons m l obj) by done. intros H. by apply IH in H.
    + by rewrite add_dangling.
Qed.

Lemma add_lookup_other m ls st m' st' h :
  add m ls st = (inr m', st') →
  (∀ l obj, l ∈ ls → servers st !! l = Some obj → host obj ≠ h) →
  database_servers m' !! h = database_servers m !! h.
Proof.
  revert m. induction ls as [|l rest IH]; intros m.
  - by intros [= <- <-].
  - destruct (servers st !! l) as [obj|] eqn:Hl.
    2:{ by rewrite add_dangling. }
    rewrite (add_cons m l obj) by done. intros H Hother.
    rewrite (IH _ H); simpl.
    + apply lookup_insert_ne. apply (Hother l obj); [left | done].
    + intros l' obj' Hin. apply Hother. by right.
Qed.

(** X1: [add] registers every server it is given under that server's host.
    Afterwards a host goes to the last of the given servers that has this
    host, and to the server it went to before when none of them has it;
    neither the default server nor the store changes. *)
Theorem add_registers_last_per_host m ls st m' st' :
  add m ls st = (inr m', st') →
  st' = st
  ∧ default_server m' = default_server m
  ∧ ∀ h, database_servers m' !! h
         = match last (servers_with_host st h ls) with
           | Some l => Some l
           | None => database_servers m !! h
           end.
Proof.
  intros H. destruct (add_inr _ _ _ _ _ H) as [-> Hd].
  split; [done|]. split; [done|]. clear Hd.
  revert m H. induction ls as [|x rest IH]; intros m H h.
  { by injection H as <-. }
  destruct (servers st !! x) as [objx|] eqn:Hx.
  2:{ by rewrite add_dangling in H. }
  rewrite (add_cons m x objx) in H by done.
  rewrite (IH _ H h). unfold servers_with_host. rewrite filter_cons.
  fold (servers_with_host st h rest). simpl. rewrite Hx. simpl.
  destruct (decide (Some (host objx) = Some h)) as [[= <-]|Hne].
  - rewrite last_cons.
    destruct (last (servers_with_host st (host objx) rest)); [done|].
    by rewrite lookup_insert_eq.
  - destruct (last (servers_with_host st h rest)); [done|].
    rewrite lookup_insert_ne; [done | congruence].
Qed.

Lemma add_registers_last_per_host_witness :
  ∃ m', add (mkManager {[ "db-b" := 7%nat ]} None) [1%nat; 0%nat; 1%nat]
          two_servers_state
        = (inr m', two_servers_state)
        ∧ default_server m' = None
        ∧ database_servers m' !! "db-a" = Some 0%nat
        ∧ database_servers m' !! "db-b" = Some 1%nat
        ∧ database_servers m' !! "db-c" = None.
Proof.
  set (m0 := mkManager {[ "db-b" := 7%nat ]} None).
  set (m1 := default m0
               (match fst (add m0 [1%nat; 0%nat; 1%nat] two_servers_state)
                with inr m => Some m | inl _ => None end)).
  assert (add m0 [1%nat; 0%nat; 1%nat] two_servers_state
          = (inr m1, two_servers_state)) as Hrun.
  { vm_compute. reflexivity. }
  destruct (add_registers_last_per_host _ _ _ _ _ Hrun) as (_ & Hd & Hmap).
  exists m1. split; [exact Hrun|]. split; [exact Hd|].
  split; [|split]; rewrite Hmap; vm_compute; reflexivity.
Defined.

Lemma hosts_of_cons st l obj rest :
  servers st !! l = Some obj → hosts_of st (l :: rest) = host obj :: hosts_of st rest.
Proof. intros H. unfold hosts_of. simpl. by rewrite H. Qed.

Lemma add_lookup_distinct m ls st m' st' l obj :
  add m ls st = (inr m', st') →
  NoDup (hosts_of st ls) →
  l ∈ ls → servers st !! l = Some obj →
  database_servers m' !! host obj = Some l.
Proof.
  revert m. induction ls as [|x rest IH]; intros m.
  { intros _ _ Hin. by apply elem_of_nil in Hin. }
  destruct (servers st !! x) as [objx|] eqn:Hx.
  2:{ by rewrite add_dangling. }
  rewrite (add_cons m x objx), (hosts_of_cons st x objx) by done.
  intros H [Hnotin Hnodup]%NoDup_cons Hin Hl.
  apply elem_of_cons in Hin as [->|Hin]; [|by eapply IH].
  assert (objx = obj) as -> by congruence.
  rewrite (add_lookup_other _ _ _ _ _ (host obj) H); simpl.
  - by rewrite lookup_insert_eq.
  - intros l' obj' Hin' Hl' Heq. apply Hnotin.
    apply list_elem_of_omap. exists l'. split; [done|]. rewrite Hl'. simpl. by rewrite Heq.
Qed.

(** X2: a manager constructed over servers with pairwise distinct hosts finds
    each of them under its host, and its default server is the first one
    given. *)
Theorem manager_finds_every_server first rest st m st' :
  DatabaseManager_init (first :: rest) st = (inr m, st') →
  NoDup (hosts_of st (first :: rest)) →
  st' = st
  ∧ (∀ l obj, l ∈ first :: rest → servers st !! l = Some obj →
              database_servers m !! host obj = Some l)
  ∧ ∃ obj, servers st !! first = Some obj
           ∧ default_server m = Some (host obj)
           ∧ ∀ st0, get m None st0 = (inr first, st0).
Proof.
  unfold DatabaseManager_init. intros H Hnodup.
  destruct (servers st !! first) as [obj|] eqn:Hf.
  2:{ unfold and_then, read_server in H. by rewrite Hf in H. }
  assert (add (mkManager ∅ (Some (host obj))) (first :: rest) st = (inr m, st'))
    as Hadd.
  { unfold and_then at 1 2 in H. unfold read_server in H.
    by rewrite Hf in H. }
  destruct (add_inr _ _ _ _ _ Hadd) as [-> Hd]. simpl in Hd.
  assert (∀ l o, l ∈ first :: rest → servers st !! l = Some o →
                 database_servers m !! host o = Some l) as Hall.
  { intros l o. by apply (add_lookup_distinct _ _ _ _ _ _ _ Hadd). }
  split; [done|]. split; [done|].
  exists obj. split; [done|]. split; [done|].
  intros st0. apply (get_default m None (host obj)); [done | done |].
  apply Hall; [left | done].
Qed.

Lemma manager_finds_every_server_witness :
  DatabaseManager_init [0%nat; 1%nat] two_servers_state
  = (inr sample_manager, two_servers_state)
  ∧ ∀ st0, get sample_manager None st0 = (inr 0%nat, st0).
Proof.
  split; [vm_compute; reflexivity|].
  destruct (manager_finds_every_server 0%nat [1%nat] two_servers_state
              sample_manager two_servers_state)
    as (_ & _ & obj & _ & _ & Hget).
  - vm_compute. reflexivity.
  - refine (bool_decide_unpack _ _). vm_compute. exact I.
  - exact Hget.
Defined.

(** X3: a manager constructed without servers has no default server, and [add]
    never gives it one: whatever is registered afterwards, a lookup without
    host raises [AttributeError], and so does the construction of a scope
    without references. *)
Theorem manager_without_initial_server_has_no_default drv ls st m0 st0 m st1 :
  DatabaseManager_init [] st = (inr m0, st0) →
  add m0 ls st0 = (inr m, st1) →
  default_server m = None
  ∧ ∀ host st2,
      truthy host = false →
      get m host st2 = (inl AttributeError, st2)
      ∧ DatabaseContext_init drv m None st2 = (inl AttributeError, st2).
Proof.
  intros [= <- <-] Hadd.
  destruct (add_inr _ _ _ _ _ Hadd) as [_ Hd]. simpl in Hd.
  split; [done|]. intros host st2 Hhost.
  assert (∀ hst, truthy hst = false → get m hst st2 = (inl AttributeError, st2))
    as Hget.
  { intros hst Hf. unfold get. by rewrite Hf, Hd. }
  split; [by apply Hget|].
  unfold DatabaseContext_init, request. simpl.
  unfold and_then. by rewrite Hget.
Qed.

Lemma manager_without_initial_server_has_no_default_witness :
  ∃ m, add (mkManager ∅ None) [0%nat; 1%nat] two_servers_state
       = (inr m, two_servers_state)
       ∧ default_server m = None.
Proof.
  eexists. split; [vm_compute; reflexivity|].
  refine (proj1 (manager_without_initial_server_has_no_default quiet
                   [0%nat; 1%nat] two_servers_state (mkManager ∅ None)
                   two_servers_state _ two_servers_state _ _)).
  - reflexivity.
  - vm_compute. reflexivity.
Defined.

(** ** References that cannot be resolved *)

Lemma host_and_database_any_state ref st st' :
  fst (host_and_database ref st') = fst (host_and_database ref st)
  ∧ snd (host_and_database ref st) = st.
Proof. unfold host_and_database, ret, raise. by repeat case_match. Qed.

(** X4: a reference to a host that is not registered raises [KeyError], and the
    empty tuple raises [IndexError]; neither touches the store. *)
Theorem reference_to_unknown_host_raises_KeyError drv m h st :
  h ≠ "" →
  database_servers m !! h = None →
  get m (Some h) st = (inl KeyError, st)
  ∧ (∀ d, session_maker_for drv m (RefTuple [Some h; d]) st
          = (inl KeyError, st))
  ∧ session_maker_for drv m (RefTuple [Some h]) st = (inl KeyError, st)
  ∧ session_maker_for drv m (RefTuple []) st = (inl IndexError, st).
Proof.
  intros Hh Hm.
  assert (get m (Some h) st = (inl KeyError, st)) as Hget.
  { unfold get, getitem. destruct h as [|a h]; [done|]. simpl. by rewrite Hm. }
  assert (∀ d, request drv m (Some h) d st = (inl KeyError, st)) as Hreq.
  { intros d. unfold request. by rewrite (and_then_fail _ _ _ _ _ Hget). }
  split; [done|]. split; [|split; [|done]].
  - intros d. apply (Hreq d).
  - apply (Hreq None).
Qed.

Lemma reference_to_unknown_host_raises_KeyError_witness :
  session_maker_for quiet sample_manager (RefTuple [Some "db-c"])
    two_servers_state
  = (inl KeyError, two_servers_state).
Proof.
  refine (proj1 (proj2 (proj2 (reference_to_unknown_host_raises_KeyError quiet
                                 sample_manager "db-c" two_servers_state _ _)))).
  - discriminate.
  - vm_compute. reflexivity.
Defined.

Lemma for_each_stops {A B} (f : A → M B) pre r post ys x st st1 st2 :
  for_each f pre st = (inr ys, st1) →
  f r st1 = (inl x, st2) →
  for_each f (pre ++ r :: post) st = (inl x, st2).
Proof.
  revert st ys. induction pre as [|a pre IH]; intros st ys; simpl.
  - intros [= <- <-] Hr. by rewrite (and_then_fail _ _ _ _ _ Hr).
  - intros H Hr. apply and_then_inr in H as (y & st' & Ha & H).
    apply and_then_inr in H as (ys' & st'' & Hpre & [= <- <-]).
    rewrite (and_then_ok _ _ _ _ _ Ha).
    by rewrite (and_then_fail _ _ _ _ _ (IH _ _ Hpre Hr)).
Qed.

(** X5: the construction of a scope stops at the first reference that cannot be
    resolved: its exception is raised, the references after it are not
    looked at, and what the references before it added to the caches
    stays. *)
Theorem construction_stops_at_first_failure drv m pre r post sms x st st1 st2 :
  for_each (session_maker_for drv m) pre st = (inr sms, st1) →
  session_maker_for drv m r st1 = (inl x, st2) →
  DatabaseContext_init drv m (Some (pre ++ r :: post)) st = (inl x, st2)
  ∧ extends st st1 ∧ extends st1 st2.
Proof.
  intros Hpre Hr.
  assert (∀ ref s r' s', session_maker_for drv m ref s = (r', s') →
                         extends s s') as Hstep.
  { intros ref s r' s'. unfold session_maker_for.
    apply (and_then_keeps extends extends_trans).
    - intros r1 s1 H. apply host_and_database_pure in H as ->.
      apply extends_refl.
    - intros. by eapply request_extends. }
  split; [|split].
  - unfold DatabaseContext_init.
    replace (use_is_empty (Some (pre ++ r :: post))) with false
      by by destruct pre.
    simpl. by rewrite (and_then_fail _ _ _ _ _ (for_each_stops _ _ _ _ _ _ _ _ _ Hpre Hr)).
  - by apply (for_each_keeps extends extends_refl extends_trans _ Hstep)
      in Hpre.
  - by eapply Hstep.
Qed.

Lemma construction_stops_at_first_failure_witness :
  DatabaseContext_init quiet sample_manager
    (Some ([RefTuple [Some "db-a"; Some "audit"]]
           ++ RefTuple [Some "db-c"] :: [RefTuple [Some "db-b"]]))
    two_servers_state
  = (inl KeyError,
     snd (session_maker_for quiet sample_manager
            (RefTuple [Some "db-a"; Some "audit"]) two_servers_state)).
Proof.
  refine (proj1 (construction_stops_at_first_failure quiet sample_manager
                   [RefTuple [Some "db-a"; Some "audit"]]
                   (RefTuple [Some "db-c"]) [RefTuple [Some "db-b"]]
                   _ KeyError two_servers_state _ _ _ _)).
  - vm_compute. reflexivity.
  - vm_compute. reflexivity.
Defined.

(** ** Equal references *)

Lemma get_session_maker_stable drv l name sm st st1 st2 :
  get_session_maker drv l name st = (inr sm, st1) →
  extends st1 st2 →
  get_session_maker drv l name st2 = (inr sm, st2).
Proof.
  intros Hfirst Hext.
  destruct (servers st !! l) as [obj|] eqn:Hl.
  2:{ by rewrite get_session_maker_dangling in Hfirst. }
  rewrite (get_session_maker_eq drv l obj) in Hfirst by done.
  destruct (_get_or_create drv l (effective_database obj name) st)
    as [[x|[engine sm']] st1'] eqn:Hg; [done|].
  simpl in Hfirst. injection Hfirst as -> ->.
  destruct (_get_or_create_cached drv _ _ _ _ _ Hg) as (obj1 & Hl1 & Hc1).
  destruct (_get_or_create_extends drv _ _ _ _ _ Hg l obj Hl)
    as (obj1' & Hl1' & Hle1).
  assert (obj1' = obj1) as -> by congruence.
  destruct (Hext l obj1 Hl1) as (obj2 & Hl2 & Hle2).
  rewrite (get_session_maker_eq drv l obj2) by done.
  rewrite (effective_database_le obj1 obj2), (effective_database_le obj obj1)
    by done.
  rewrite (_get_or_create_hit drv l obj2 _ (engine, sm)); [done | done |].
  destruct Hle2 as (_&_&_&_&_&_&Hsub). by apply Hsub.
Qed.

Lemma session_maker_for_stable drv m ref sm st st1 st2 :
  session_maker_for drv m ref st = (inr sm, st1) →
  extends st1 st2 →
  session_maker_for drv m ref st2 = (inr sm, st2).
Proof.
  unfold session_maker_for, request. intros H Hext.
  apply and_then_inr in H as (hd & sa & Hhd & H).
  apply and_then_inr in H as (l & sb & Hget & H).
  pose proof (host_and_database_any_state ref st st2) as [E1 S1].
  pose proof (host_and_database_any_state ref st2 st2) as [_ S1'].
  rewrite Hhd in E1, S1. simpl in E1, S1. subst sa.
  pose proof (get_any_state m (fst hd) st st2) as [E2 S2].
  pose proof (get_any_state m (fst hd) st2 st2) as [_ S2'].
  rewrite Hget in E2, S2. simpl in E2, S2. subst sb.
  destruct (host_and_database ref st2) as [r1 s1] eqn:Hhd2.
  simpl in E1, S1'. subst r1 s1.
  destruct (get m (fst hd) st2) as [r2 s2] eqn:Hget2.
  simpl in E2, S2'. subst r2 s2.
  unfold and_then at 1. rewrite Hhd2. unfold and_then at 1. rewrite Hget2.
  by eapply get_session_maker_stable.
Qed.

Lemma session_maker_for_extends drv m ref st r st' :
  session_maker_for drv m ref st = (r, st') → extends st st'.
Proof.
  unfold session_maker_for.
  apply (and_then_keeps extends extends_trans).
  - intros r1 s1 H. apply host_and_database_pure in H as ->.
    apply extends_refl.
  - intros. by eapply request_extends.
Qed.

Lemma resolved_before drv m refs st sms st' ref sm st0 st0' :
  for_each (session_maker_for drv m) refs st = (inr sms, st') →
  session_maker_for drv m ref st0 = (inr sm, st0') →
  extends st0' st →
  ∀ j, refs !! j = Some ref → sms !! j = Some sm.
Proof.
  revert st sms. induction refs as [|r0 refs IH]; intros st sms; simpl.
  { by intros _ _ _ j. }
  intros H Hfirst Hext j Hj.
  apply and_then_inr in H as (s0 & st1 & Hr0 & H).
  apply and_then_inr in H as (sms' & st2 & Hrest & [= <- <-]).
  destruct j as [|j]; simpl in *.
  - injection Hj as ->.
    pose proof (session_maker_for_stable _ _ _ _ _ _ _ Hfirst Hext) as Hagain.
    congruence.
  - eapply (IH st1); [done | done | | done].
    eapply extends_trans; [done | by eapply session_maker_for_extends].
Qed.

(** X6: equal references in one scope get the same session factory: the second
    occurrence finds what the first one cached. *)
Theorem equal_references_share_factory drv m refs ctx st st' (i j : nat) ref :
  DatabaseContext_init drv m (Some refs) st = (inr ctx, st') →
  refs !! i = Some ref → refs !! j = Some ref → (i < j)%nat →
  ∃ sm, session_makers ctx !! i = Some sm ∧ session_makers ctx !! j = Some sm.
Proof.
  intros Hinit Hi Hj Hlt.
  assert (use_is_empty (Some refs) = false) as Hne.
  { destruct refs; [by rewrite lookup_nil in Hi | done]. }
  unfold DatabaseContext_init in Hinit. rewrite Hne in Hinit. simpl in Hinit.
  apply and_then_inr in Hinit as (sms & st1 & Hall & [= <- <-]). simpl.
  clear Hne. revert st sms i j Hall Hi Hj Hlt.
  induction refs as [|r0 refs IH]; intros st sms i j Hall Hi Hj Hlt.
  { by rewrite lookup_nil in Hi. }
  simpl in Hall.
  apply and_then_inr in Hall as (s0 & st2 & Hr0 & Hall).
  apply and_then_inr in Hall as (sms' & st3 & Hrest & [= <- <-]).
  destruct j as [|j]; [lia|]. destruct i as [|i]; simpl in *.
  - injection Hi as ->. exists s0. split; [done|].
    eapply resolved_before; [done | done | apply extends_refl | done].
  - eapply (IH st2); [done | done | done | lia].
Qed.

Lemma equal_references_share_factory_witness :
  ∃ ctx st' sm,
    DatabaseContext_init quiet sample_manager
      (Some [RefTuple [Some "db-b"; Some "audit"]; RefNone;
             RefTuple [Some "db-b"; Some "audit"]]) two_servers_state
    = (inr ctx, st')
    ∧ session_makers ctx !! 0%nat = Some sm
    ∧ session_makers ctx !! 2%nat = Some sm.
Proof.
  eexists _, _.
  assert (∀ ctx st',
            DatabaseContext_init quiet sample_manager
              (Some [RefTuple [Some "db-b"; Some "audit"]; RefNone;
                     RefTuple [Some "db-b"; Some "audit"]]) two_servers_state
            = (inr ctx, st') →
            ∃ sm, session_makers ctx !! 0%nat = Some sm
                  ∧ session_makers ctx !! 2%nat = Some sm) as H.
  { intros ctx st' Hinit.
    apply (equal_references_share_factory quiet sample_manager _ ctx
             two_servers_state st' 0%nat 2%nat
             (RefTuple [Some "db-b"; Some "audit"]) Hinit);
      [reflexivity | reflexivity | lia]. }
  destruct (H _ _ ltac:(vm_compute; reflexivity)) as (sm & H0 & H2).
  exists sm. split; [vm_compute; reflexivity|]. by split.
Defined.

(** ** A scope from entry to exit *)

Lemma open_all_trace drv fs st ss st' :
  for_each (call_sessionmaker drv) fs st = (inr ss, st') →
  trace st' = trace st ++ map SessionOpened ss
  ∧ map sess_id ss = seq (next_id st) (length fs).
Proof.
  revert st ss. induction fs as [|f fs IH]; intros st ss; simpl.
  - intros [= <- <-]. by rewrite app_nil_r.
  - intros H. apply and_then_inr in H as (s & st1 & Hs & H).
    apply and_then_inr in H as (ss' & st2 & Hss & [= <- <-]).
    apply call_sessionmaker_inr in Hs as (_ & Hid & ->).
    apply IH in Hss as [-> Hids]. simpl in *.
    split; [by rewrite <- app_assoc | by rewrite Hid, Hids].
Qed.

(** X7: entering a scope opens one session per factory, in the order of the
    factories, each an instance of its factory's class on its factory's
    connection handle, and all of them distinct objects.  The scope records
    them, and the caller gets the session itself when there is exactly one
    and the tuple otherwise. *)
Theorem entering_opens_one_session_per_factory drv ctx st ctx' v st' :
  __aenter__ drv ctx st = (inr (ctx', v), st') →
  ∃ ss,
    ctx' = mkContext (session_makers ctx) (Some ss)
    ∧ Forall2 made_by (session_makers ctx) ss
    ∧ NoDup (map sess_id ss)
    ∧ trace st' = trace st ++ map SessionOpened ss
    ∧ v = match ss with [s] => One s | _ => Several ss end.
Proof.
  intros H. apply aenter_inr in H as (ss & st1 & Hss & -> & -> & _ & Htr & _).
  exists ss. split; [done|]. split; [by eapply open_all_made_by|].
  destruct (open_all_trace _ _ _ _ _ Hss) as [Htr1 Hids].
  split; [rewrite Hids; apply NoDup_seq|]. split; [congruence | done].
Qed.

Lemma entering_opens_one_session_per_factory_witness :
  ∃ ctx' st' ss,
    __aenter__ quiet fresh_context two_engines_state
    = (inr (ctx', Several ss), st')
    ∧ ctx' = mkContext (session_makers fresh_context) (Some ss)
    ∧ NoDup (map sess_id ss).
Proof.
  assert (__aenter__ quiet fresh_context two_engines_state
          = (inr (mkContext (session_makers fresh_context)
                    (Some [plain_session 2; plain_session 3; plain_session 4]),
                  Several [plain_session 2; plain_session 3; plain_session 4]),
             snd (__aenter__ quiet fresh_context two_engines_state))) as Hrun.
  { vm_compute. reflexivity. }
  destruct (entering_opens_one_session_per_factory _ _ _ _ _ _ Hrun)
    as (ss & Hctx & _ & Hnodup & _).
  injection Hctx as <-.
  eexists _, _, _. split; [exact Hrun|]. by split.
Defined.

Lemma plain_sessions_close drv fs ss :
  Forall (λ f, class_ f = Session) fs →
  (∀ s, drv_close drv s = None) →
  Forall2 made_by fs ss →
  Forall (λ s, close_outcome drv s = inr tt) ss.
Proof.
  intros Hfs Hdrv Hmade. induction Hmade as [|f s fs ss (Hc & _) _ IH];
    [constructor|].
  apply Forall_cons in Hfs as [Hf Hfs].
  constructor; [|by apply IH].
  unfold close_outcome. by rewrite Hc, Hf, Hdrv.
Qed.

(** X8: a scope whose factories all make [Session] instances, under a driver
    whose [close] does not fail: whether the body returns or raises, every
    session opened on entry is closed exactly once after the body, in the
    order it was opened, and the outcome of the body is the outcome of the
    whole. *)
Theorem scope_closes_every_session_once {A} drv ctx (body : entered → M A)
    st ctx1 v st1 r st2 :
  Forall (λ f, class_ f = Session) (session_makers ctx) →
  (∀ s, drv_close drv s = None) →
  __aenter__ drv ctx st = (inr (ctx1, v), st1) →
  body v st1 = (r, st2) →
  ∃ ss st3,
    sessions ctx1 = Some ss
    ∧ async_with drv ctx body st = (r, st3)
    ∧ trace st3
      = trace st2 ++ map (λ s, CloseCalled ViaSyncToAsync s None) ss
    ∧ servers st3 = servers st2.
Proof.
  intros Hfs Hdrv Henter Hbody.
  pose proof Henter as Henter'.
  apply aenter_inr in Henter' as (ss & st0 & Hss & -> & _).
  apply open_all_made_by in Hss.
  pose proof (plain_sessions_close drv _ _ Hfs Hdrv Hss) as Hok.
  exists ss, (after_closes drv ss st2). split; [done|]. split.
  - unfold async_with. rewrite Henter, Hbody.
    rewrite (aexit_eq drv _ ss) by done.
    rewrite (close_loop_completes drv ss st2 Hok).
    by destruct r.
  - unfold after_closes. simpl. by rewrite close_events_all_ok.
Qed.

Lemma scope_closes_every_session_once_witness :
  ∃ ss st3,
    async_with quiet fresh_context (λ _, raise KeyError) two_engines_state
    = (@inl exn unit KeyError, st3)
    ∧ closed_sessions (trace st3) = ss ∧ length ss = 3%nat.
Proof.
  destruct (scope_closes_every_session_once quiet fresh_context
              (λ _, @raise unit KeyError) two_engines_state
              (mkContext (session_makers fresh_context)
                 (Some [plain_session 2; plain_session 3; plain_session 4]))
              (Several [plain_session 2; plain_session 3; plain_session 4])
              (snd (__aenter__ quiet fresh_context two_engines_state))
              (inl KeyError)
              (snd (__aenter__ quiet fresh_context two_engines_state)))
    as (ss & st3 & Hss & Hrun & Htr & _).
  - repeat constructor.
  - reflexivity.
  - vm_compute. reflexivity.
  - reflexivity.
  - exists ss, st3. split; [exact Hrun|]. injection Hss as <-.
    rewrite Htr. split; [vm_compute; reflexivity | reflexivity].
Defined.

(** X9: [__aexit__] does not forget the sessions: after an exit that closed
    them all, a second exit closes every one of them again. *)
Theorem second_exit_closes_again drv ctx ss st :
  sessions ctx = Some ss →
  Forall (λ s, sess_class s = Session) ss →
  (∀ s, drv_close drv s = None) →
  ∃ st1 st2,
    __aexit__ drv ctx st = (inr tt, st1)
    ∧ __aexit__ drv ctx st1 = (inr tt, st2)
    ∧ closed_sessions (trace st2) = closed_sessions (trace st) ++ ss ++ ss.
Proof.
  intros Hss Hcls Hdrv.
  assert (Forall (λ s, close_outcome drv s = inr tt) ss) as Hok.
  { eapply Forall_impl; [exact Hcls|]. intros s Hs.
    unfold close_outcome. by rewrite Hs, Hdrv. }
  exists (after_closes drv ss st), (after_closes drv ss (after_closes drv ss st)).
  rewrite (aexit_eq drv ctx ss Hss), !close_loop_completes by done.
  split; [done|]. split; [done|].
  unfold after_closes. simpl. rewrite close_events_all_ok by done.
  by rewrite !closed_sessions_app, !closed_sessions_all, <- app_assoc.
Qed.

Lemma second_exit_closes_again_witness :
  ∃ st1 st2,
    __aexit__ quiet entered_context two_engines_state = (inr tt, st1)
    ∧ __aexit__ quiet entered_context st1 = (inr tt, st2)
    ∧ closed_sessions (trace st2)
      = closed_sessions (trace two_engines_state)
        ++ [plain_session 3; plain_session 4; plain_session 5]
        ++ [plain_session 3; plain_session 4; plain_session 5].
Proof.
  apply (second_exit_closes_again quiet entered_context
           [plain_session 3; plain_session 4; plain_session 5]).
  - reflexivity.
  - repeat constructor.
  - reflexivity.
Defined.

Lemma caches_untouched_refl st : caches_untouched st st.
Proof. by split. Qed.

Lemma caches_untouched_trans st1 st2 st3 :
  caches_untouched st1 st2 → caches_untouched st2 st3 →
  caches_untouched st1 st3.
Proof. intros [? ?] [? ?]. split; congruence. Qed.

Lemma engines_created_snoc tr ev :
  (∀ e, ev ≠ EngineCreated e) →
  engines_created (tr ++ [ev]) = engines_created tr.
Proof.
  intros H. unfold engines_created. rewrite omap_app. simpl.
  destruct ev; [by destruct (H e) | |]; by rewrite app_nil_r.
Qed.

Lemma call_sessionmaker_caches drv f st r st' :
  call_sessionmaker drv f st = (r, st') → caches_untouched st st'.
Proof.
  unfold call_sessionmaker.
  destruct (takes_session_keywords (class_ f)); simpl;
    [|intros [= <- <-]; apply caches_untouched_refl].
  destruct (drv_session drv (next_id st) f);
    intros [= <- <-]; [apply caches_untouched_refl|].
  split; [done|]. simpl. by apply engines_created_snoc.
Qed.

Lemma close_session_caches drv s st r st' :
  close_session drv s st = (r, st') → caches_untouched st st'.
Proof.
  rewrite close_session_eq. intros [= <- <-]. split; [done|].
  unfold after_closes, close_events. simpl.
  destruct (close_attr (sess_class s)) as [[]|]; simpl;
    rewrite ?app_nil_r; try done.
  by apply engines_created_snoc.
Qed.

(** X10: entering and leaving a scope, whatever the outcome, changes no
    registry and creates no connection handle; the same holds of a whole
    [async with] whose body does neither. *)
Theorem scope_leaves_caches_untouched {A} drv ctx (body : entered → M A) st :
  (∀ v s r s', body v s = (r, s') → caches_untouched s s') →
  (∀ r st', __aenter__ drv ctx st = (r, st') → caches_untouched st st')
  ∧ (∀ s r st', __aexit__ drv ctx s = (r, st') → caches_untouched s st')
  ∧ (∀ r st', async_with drv ctx body st = (r, st') → caches_untouched st st').
Proof.
  intros Hbody.
  assert (∀ c s r s', __aenter__ drv c s = (r, s') → caches_untouched s s')
    as Henter.
  { intros c s r s'. unfold __aenter__.
    apply (and_then_keeps caches_untouched caches_untouched_trans).
    - intros r1 s1.
      apply (for_each_keeps caches_untouched caches_untouched_refl
               caches_untouched_trans).
      apply call_sessionmaker_caches.
    - intros opened s1 r2 s2. unfold and_then, print, ret.
      destruct opened as [|o [|]]; by intros [= <- <-]. }
  assert (∀ c s r s', __aexit__ drv c s = (r, s') → caches_untouched s s')
    as Hexit.
  { intros c s r s'. unfold __aexit__. destruct (sessions c) as [[|o ss]|];
      try (intros [= <- <-]; apply caches_untouched_refl).
    apply (for_keeps caches_untouched caches_untouched_refl
             caches_untouched_trans).
    apply close_session_caches. }
  split; [apply Henter|]. split; [apply Hexit|].
  intros r st'. unfold async_with.
  destruct (__aenter__ drv ctx st) as [[x|[ctx1 v]] st1] eqn:He.
  { intros [= <- <-]. by eapply Henter. }
  destruct (body v st1) as [rb st2] eqn:Hb.
  destruct (__aexit__ drv ctx1 st2) as [rx st3] eqn:Hx.
  assert (caches_untouched st st3) as Hall.
  { eapply caches_untouched_trans; [by eapply Henter|].
    eapply caches_untouched_trans; [by eapply Hbody | by eapply Hexit]. }
  destruct rb, rx; by intros [= <- <-].
Qed.

Lemma scope_leaves_caches_untouched_witness :
  caches_untouched two_engines_state
    (snd (async_with quiet fresh_context (λ v, ret v) two_engines_state)).
Proof.
  refine (proj2 (proj2 (scope_leaves_caches_untouched quiet fresh_context
                          (λ v, ret v) two_engines_state _)) _ _ _).
  - intros v s r s' [= <- <-]. apply caches_untouched_refl.
  - apply surjective_pairing.
Defined.

(** ** What the caches hold *)

Lemma call_create_engine_entry drv obj d st e st' :
  call_create_engine drv obj d st = (inr e, st') →
  entry_ok obj d (e, factory_of e).
Proof.
  unfold call_create_engine, _create_mssql, _create_postgres,
    _create_async_postgres, URL_create, create_engine, create_async_engine,
    entry_ok, and_then, ret, raise.
  destruct (_create_engine obj); try discriminate;
    match goal with |- context [match ?o with Some _ => _ | None => _ end] =>
      destruct o end;
    try discriminate; intros [= <- <-]; by repeat split.
Qed.

Lemma keeps_cache_ok_refl l st : keeps_cache_ok l st st.
Proof. by intros H. Qed.

Lemma keeps_cache_ok_trans l st1 st2 st3 :
  keeps_cache_ok l st1 st2 → keeps_cache_ok l st2 st3 → keeps_cache_ok l st1 st3.
Proof. unfold keeps_cache_ok. auto. Qed.

Lemma keeps_cache_ok_same l st st' :
  servers st' = servers st → keeps_cache_ok l st st'.
Proof. intros E H obj d c. rewrite E. apply H. Qed.

Lemma _get_or_create_keeps_ok drv l l' d st r st' :
  _get_or_create drv l' d st = (r, st') → keeps_cache_ok l st st'.
Proof.
  destruct (servers st !! l') as [obj|] eqn:Hl.
  2:{ rewrite _get_or_create_dangling by done. intros [= <- <-].
      apply keeps_cache_ok_refl. }
  rewrite (_get_or_create_eq drv l' obj) by done.
  destruct (databases obj !! d) as [cached|] eqn:Hd.
  { intros [= <- <-]. apply keeps_cache_ok_refl. }
  rewrite (_create_eq drv l' obj) by done.
  destruct (call_create_engine drv obj d st) as [[x|e] st1] eqn:Hc.
  { apply call_create_engine_inl in Hc as [-> _]. intros [= <- <-].
    apply keeps_cache_ok_refl. }
  pose proof (call_create_engine_entry _ _ _ _ _ _ Hc) as Hentry.
  apply call_create_engine_inr in Hc as (-> & _). simpl.
  intros [= <- <-] Hok obj2 d2 c2. simpl.
  destruct (decide (l = l')) as [->|Hne].
  - rewrite lookup_insert_eq. intros [= <-]. simpl.
    destruct (decide (d2 = d)) as [->|Hd2].
    + rewrite lookup_insert_eq. by intros [= <-].
    + rewrite lookup_insert_ne by done. intros H2. by apply (Hok obj d2 c2).
  - rewrite lookup_insert_ne by done. apply Hok.
Qed.

Lemma get_session_maker_keeps_ok drv l l' d st r st' :
  get_session_maker drv l' d st = (r, st') → keeps_cache_ok l st st'.
Proof.
  destruct (servers st !! l') as [obj|] eqn:Hl.
  2:{ rewrite get_session_maker_dangling by done. intros [= <- <-].
      apply keeps_cache_ok_refl. }
  rewrite (get_session_maker_eq drv l' obj) by done.
  destruct (_get_or_create drv l' (effective_database obj d) st)
    as [[x|c] st1] eqn:Hg;
    intros [= <- <-]; by eapply _get_or_create_keeps_ok.
Qed.

Lemma DatabaseContext_init_keeps_ok drv l m use st r st' :
  DatabaseContext_init drv m use st = (r, st') → keeps_cache_ok l st st'.
Proof.
  assert (∀ h d s r' s', request drv m h d s = (r', s') →
                         keeps_cache_ok l s s') as Hreq.
  { intros h d s r' s'. unfold request.
    apply (and_then_keeps (keeps_cache_ok l) (keeps_cache_ok_trans l)).
    - intros r1 s1 H. apply get_pure in H as ->. apply keeps_cache_ok_refl.
    - intros. by eapply get_session_maker_keeps_ok. }
  unfold DatabaseContext_init.
  apply (and_then_keeps (keeps_cache_ok l) (keeps_cache_ok_trans l)).
  2:{ intros x s1 r2 s2 [= <- <-]. apply keeps_cache_ok_refl. }
  intros r1 s1. destruct (use_is_empty use).
  - apply (and_then_keeps (keeps_cache_ok l) (keeps_cache_ok_trans l)).
    + intros. by eapply Hreq.
    + intros x s2 r2 s3 [= <- <-]. apply keeps_cache_ok_refl.
  - apply (for_each_keeps (keeps_cache_ok l) (keeps_cache_ok_refl l)
             (keeps_cache_ok_trans l)).
    intros ref s2 r2 s3. unfold session_maker_for.
    apply (and_then_keeps (keeps_cache_ok l) (keeps_cache_ok_trans l)).
    + intros r3 s4 H. apply host_and_database_pure in H as ->.
      apply keeps_cache_ok_refl.
    + intros. by eapply Hreq.
Qed.

Lemma DatabaseServer_init_keeps_ok drv l h u p n k dflt st r st' :
  DatabaseServer_init drv h u p n k dflt st = (r, st') → keeps_cache_ok l st st'.
Proof.
  rewrite DatabaseServer_init_eq.
  destruct (find_create ("_create_" ++ k)) as [create|].
  2:{ intros [= <- <-]. apply keeps_cache_ok_refl. }
  simpl.
  set (st0 := mkState _ _ _ _).
  assert (keeps_cache_ok l st st0) as H0.
  { intros Hok obj d c. unfold st0. simpl.
    destruct (decide (l = fresh (dom (servers st)))) as [->|Hne].
    - rewrite lookup_insert_eq. intros [= <-]. simpl. by rewrite lookup_empty.
    - rewrite lookup_insert_ne by done. apply Hok. }
  destruct (truthy dflt).
  - destruct (_get_or_create drv _ dflt st0) as [[x|c] st2] eqn:Hg;
      intros [= <- <-];
      (eapply keeps_cache_ok_trans;
       [exact H0 | by eapply _get_or_create_keeps_ok]).
  - by intros [= <- <-].
Qed.

Lemma later_keeps_ok drv l st st' : later drv st st' → keeps_cache_ok l st st'.
Proof.
  induction 1 as [st | st l0 d r st1 st2 H _ IH
                  | st h u p n k dflt r st1 st2 H _ IH
                  | st m use r st1 st2 H _ IH
                  | st ctx r st1 st2 H _ IH
                  | st ctx r st1 st2 H _ IH].
  - apply keeps_cache_ok_refl.
  - eapply keeps_cache_ok_trans; [by eapply get_session_maker_keeps_ok | done].
  - eapply keeps_cache_ok_trans; [by eapply DatabaseServer_init_keeps_ok | done].
  - eapply keeps_cache_ok_trans; [by eapply DatabaseContext_init_keeps_ok | done].
  - eapply keeps_cache_ok_trans; [|done].
    apply keeps_cache_ok_same. by eapply aenter_servers.
  - eapply keeps_cache_ok_trans; [|done].
    apply keeps_cache_ok_same. by eapply aexit_servers.
Qed.

Lemma DatabaseServer_init_fields drv h u p n k dflt st l st1 :
  DatabaseServer_init drv h u p n k dflt st = (inr l, st1) →
  servers st !! l = None
  ∧ ∃ obj, servers st1 !! l = Some obj
           ∧ host obj = h ∧ port obj = n ∧ username obj = u
           ∧ password obj = p ∧ default_database obj = dflt
           ∧ find_create ("_create_" ++ k) = Some (_create_engine obj).
Proof.
  rewrite DatabaseServer_init_eq.
  destruct (find_create ("_create_" ++ k)) as [create|] eqn:Hk; [|done].
  simpl.
  assert (servers st !! fresh (dom (servers st)) = None) as Hfresh.
  { apply not_elem_of_dom, is_fresh. }
  set (obj0 := mkServer h n u p create ∅ dflt).
  set (st0 := mkState _ _ _ _).
  assert (servers st0 !! fresh (dom (servers st)) = Some obj0) as Hl0.
  { unfold st0. simpl. by rewrite lookup_insert_eq. }
  destruct (truthy dflt).
  - destruct (_get_or_create drv _ dflt st0) as [[x|c] st2] eqn:Hg; [done|].
    intros [= <- <-]. split; [done|].
    destruct (_get_or_create_extends drv _ _ _ _ _ Hg _ _ Hl0)
      as (obj & Hl & (Hh & Hp & Hu & Hpw & Hc & Hd & _)).
    exists obj. by rewrite Hh, Hp, Hu, Hpw, Hc, Hd.
  - intros [= <- <-]. split; [done|]. by exists obj0.
Qed.

(** X11: on a registry built by [DatabaseServer], whatever requests and scopes
    came afterwards, the cache entry of a database is a connection handle
    to that very database, at the host and port and with the credentials
    the registry was constructed with, in the dialect of its engine kind,
    paired with the factory built around that handle. *)
Theorem cached_entries_point_to_their_database
    drv h u p n k dflt st l st1 st2 obj d e sm :
  DatabaseServer_init drv h u p n k dflt st = (inr l, st1) →
  later drv st1 st2 →
  servers st2 !! l = Some obj →
  databases obj !! d = Some (e, sm) →
  ∃ routine,
    find_create ("_create_" ++ k) = Some routine
    ∧ eng_url e
      = mkURL (fst (dialect_of routine)) (snd (dialect_of routine)) u p h n d
    ∧ bind sm = e ∧ expire_on_commit sm = false
    ∧ class_ sm = (if String.eqb k "async_postgres" then AsyncEngine
                   else Session).
Proof.
  intros Hinit Hlater Hl Hd.
  destruct (DatabaseServer_init_fields _ _ _ _ _ _ _ _ _ _ Hinit)
    as (Hnone & obj1 & Hl1 & Hh & Hp & Hu & Hpw & _ & Hk).
  assert (cache_ok_at l st) as Hok0.
  { intros o d0 c0 Ho. by rewrite Hnone in Ho. }
  pose proof (DatabaseServer_init_keeps_ok _ l _ _ _ _ _ _ _ _ _ Hinit Hok0)
    as Hok1.
  pose proof (later_keeps_ok _ l _ _ Hlater Hok1 obj d (e, sm) Hl Hd)
    as (_ & Hsm & Hurl & Hcls).
  destruct (later_extends drv _ _ Hlater l obj1 Hl1) as (obj' & Hl' & Hle).
  assert (obj' = obj) as -> by congruence.
  destruct Hle as (Hh' & Hp' & Hu' & Hpw' & Hc' & _).
  simpl in Hsm, Hurl, Hcls.
  exists (_create_engine obj). rewrite Hc'. split; [done|].
  rewrite Hurl, Hc', Hu', Hpw', Hh', Hp', Hu, Hpw, Hh, Hp.
  split; [done|]. subst sm. split; [done|]. split; [done|].
  unfold factory_of, isinstance_engine. simpl. rewrite Hcls, Hc'.
  rewrite find_create_known in Hk.
  destruct (String.eqb_spec k "mssql") as [->|_]; [by injection Hk as <-|].
  destruct (String.eqb_spec k "postgres") as [->|_]; [by injection Hk as <-|].
  destruct (String.eqb k "async_postgres"); [by injection Hk as <-|done].
Qed.

Lemma cached_entries_point_to_their_database_witness :
  ∃ obj e sm,
    servers audit_state !! 0%nat = Some obj
    ∧ databases obj !! Some "audit" = Some (e, sm)
    ∧ eng_url e = mkURL None "postgresql" "app" "secret" "db-a" 5432
                    (Some "audit")
    ∧ bind sm = e.
Proof.
  assert (∃ obj e sm, servers audit_state !! 0%nat = Some obj
                      ∧ databases obj !! Some "audit" = Some (e, sm))
    as (obj & e & sm & Hl & Hd).
  { eexists _, _, _. split; vm_compute; reflexivity. }
  exists obj, e, sm. split; [exact Hl|]. split; [exact Hd|].
  destruct (cached_entries_point_to_their_database quiet "db-a" "app" "secret"
              5432 "postgres" (Some "orders") empty_state 0%nat orders_state
              audit_state obj (Some "audit") e sm)
    as (routine & Hk & Hurl & Hb & _).
  - vm_compute. reflexivity.
  - eapply (later_get_session_maker quiet orders_state 0%nat (Some "billing"));
      [apply surjective_pairing|].
    eapply (later_get_session_maker quiet billing_state 0%nat (Some "audit"));
      [apply surjective_pairing | apply later_refl].
  - exact Hl.
  - exact Hd.
  - injection Hk as <-. by split.
Defined.

(** ** What a request leaves alone *)

(** X12: a request to one registry leaves every other registry as it was, and on
    its own registry every cache entry but the one it asks for; it opens and
    closes no session; and when it fails it changes nothing at all, so that
    the next request for the same name asks the driver again. *)
Theorem request_touches_one_entry drv l obj name r st st' :
  servers st !! l = Some obj →
  get_session_maker drv l name st = (r, st') →
  (∀ l', l' ≠ l → servers st' !! l' = servers st !! l')
  ∧ (∃ obj', servers st' !! l = Some obj'
             ∧ server_le obj obj'
             ∧ ∀ d, d ≠ effective_database obj name →
                    databases obj' !! d = databases obj !! d)
  ∧ sessions_opened (trace st') = sessions_opened (trace st)
  ∧ close_attempts (trace st') = close_attempts (trace st)
  ∧ (∀ x, r = inl x → st' = st).
Proof.
  intros Hl Hreq.
  pose proof (get_session_maker_effect drv l obj name r st st' Hl Hreq) as He.
  assert (∀ x, r = inl x → st' = st) as Hfail.
  { intros x ->. destruct (databases obj !! effective_database obj name).
    - by destruct He.
    - by destruct He as [(y & _ & -> & _) | (e & [=] & _)]. }
  destruct (databases obj !! effective_database obj name) eqn:Hd.
  { destruct He as [_ ->]. repeat split; try done.
    exists obj. split; [done|]. split; [apply server_le_refl | done]. }
  destruct He as [(y & _ & -> & _) | (e & -> & _ & ->)].
  { repeat split; try done.
    exists obj. split; [done|]. split; [apply server_le_refl | done]. }
  simpl. split; [|split; [|split; [|split; [|done]]]].
  - intros l' Hne. by rewrite lookup_insert_ne.
  - eexists. rewrite lookup_insert_eq. split; [done|]. split.
    + repeat split; simpl; try done.
      intros d c Hc. rewrite lookup_insert_ne; [done | congruence].
    + intros d Hne. simpl. by rewrite lookup_insert_ne.
  - unfold sessions_opened. rewrite omap_app. simpl. by rewrite app_nil_r.
  - unfold close_attempts. rewrite omap_app. simpl. by rewrite app_nil_r.
Qed.

Lemma request_touches_one_entry_witness :
  servers billing_state !! 1%nat = servers orders_state !! 1%nat
  ∧ sessions_opened (trace billing_state) = sessions_opened (trace orders_state).
Proof.
  assert (∃ obj, servers orders_state !! 0%nat = Some obj) as [obj Hl].
  { eexists. vm_compute. reflexivity. }
  destruct (request_touches_one_entry quiet 0%nat obj (Some "billing")
              (fst (get_session_maker quiet 0%nat (Some "billing") orders_state))
              orders_state billing_state Hl)
    as (Hother & _ & Hopen & _).
  - apply surjective_pairing.
  - split; [apply Hother; lia | exact Hopen].
Defined.

(** ** Failures of the construction of a registry *)

Lemma find_create_kind k routine :
  find_create ("_create_" ++ k) = Some routine →
  match routine with
  | Create_mssql => k = "mssql"
  | Create_postgres => k = "postgres"
  | Create_async_postgres => k = "async_postgres"
  end.
Proof.
  rewrite find_create_known.
  destruct (String.eqb_spec k "mssql") as [->|_]; [by intros [= <-]|].
  destruct (String.eqb_spec k "postgres") as [->|_]; [by intros [= <-]|].
  destruct (String.eqb_spec k "async_postgres") as [->|_]; [by intros [= <-]|].
  done.
Qed.

(** X13: the construction of a registry can fail in three ways only.  With
    [AttributeError], before anything is done, on an engine identifier that
    names no routine.  With [TypeError], when a default database is given
    and the engine is [mssql], whose routine cannot build its URL.  With
    the driver's exception, when a default database is given, the engine is
    one of the two Postgres kinds and the connection handle cannot be
    created.  In every case no connection handle has been created and no
    registry that existed has changed. *)
Theorem registry_construction_failures drv h u p n k dflt st x st' :
  DatabaseServer_init drv h u p n k dflt st = (inl x, st') →
  (x = AttributeError ∧ find_create ("_create_" ++ k) = None ∧ st' = st)
  ∨ (truthy dflt = true
     ∧ trace st' = trace st
     ∧ extends st st'
     ∧ ((x = TypeError ∧ k = "mssql")
        ∨ ∃ msg, x = DriverError msg
                 ∧ (k = "postgres" ∨ k = "async_postgres"))).
Proof.
  intros Hinit. pose proof Hinit as Hinit'.
  rewrite DatabaseServer_init_eq in Hinit.
  destruct (find_create ("_create_" ++ k)) as [create|] eqn:Hk.
  2:{ injection Hinit as <- <-. by left. }
  right. simpl in Hinit. apply find_create_kind in Hk.
  destruct (truthy dflt) eqn:Ht; [|done].
  set (obj0 := mkServer h n u p create ∅ dflt) in Hinit.
  set (st0 := mkState _ _ _ _) in Hinit.
  assert (servers st0 !! fresh (dom (servers st)) = Some obj0) as Hl0.
  { unfold st0. simpl. by rewrite lookup_insert_eq. }
  rewrite (_get_or_create_eq drv _ obj0) in Hinit by done.
  replace (databases obj0 !! dflt) with (@None (EngineObj * sessionmaker))
    in Hinit by (unfold obj0; simpl; by rewrite lookup_empty).
  rewrite (_create_eq drv _ obj0) in Hinit by done.
  destruct (call_create_engine drv obj0 dflt st0) as [[y|e] st2] eqn:Hc;
    [|done].
  apply call_create_engine_inl in Hc as [-> Hy].
  injection Hinit as <- <-.
  split; [done|]. split; [done|].
  split; [by eapply DatabaseServer_init_extends|].
  unfold obj0 in Hy. simpl in Hy.
  destruct create; [by left | |];
    destruct Hy as [msg ->]; right; exists msg; auto.
Qed.

Lemma registry_construction_failures_witness :
  oracle_server empty_state = (inl AttributeError, empty_state)
  ∧ find_create ("_create_" ++ "oracle") = None.
Proof.
  destruct (registry_construction_failures quiet "db-a" "app" "secret" 5432
              "oracle" None empty_state AttributeError empty_state)
    as [(_ & Hk & _) | ([=] & _)].
  - reflexivity.
  - split; [reflexivity | exact Hk].
Defined.

(** ** [_create] without the lookup *)

(** X14: [_create] does not look at the cache: called again for a database it
    has already created, it asks the driver for a second connection
    handle and puts it in the place of the first. *)
Theorem create_replaces_cached_entry drv l obj d e1 sm1 e2 sm2 st st1 st2 :
  servers st !! l = Some obj →
  _create drv l d st = (inr (e1, sm1), st1) →
  _create drv l d st1 = (inr (e2, sm2), st2) →
  eng_id e2 = S (eng_id e1)
  ∧ trace st2 = trace st ++ [EngineCreated e1; EngineCreated e2]
  ∧ _get_or_create drv l d st1 = (inr (e1, sm1), st1)
  ∧ _get_or_create drv l d st2 = (inr (e2, sm2), st2).
Proof.
  intros Hl H1 H2.
  rewrite (_create_eq drv l obj) in H1 by done.
  destruct (call_create_engine drv obj d st) as [[x|e] sa] eqn:Hc1; [done|].
  apply call_create_engine_inr in Hc1 as (-> & Hid1 & _).
  injection H1 as <- <- <-. simpl in *.
  set (obj1 := set_databases _ obj) in *.
  set (st1 := mkState _ _ _ _) in *.
  assert (servers st1 !! l = Some obj1) as Hl1.
  { unfold st1. simpl. by rewrite lookup_insert_eq. }
  rewrite (_create_eq drv l obj1) in H2 by done.
  destruct (call_create_engine drv obj1 d st1) as [[x|e'] sb] eqn:Hc2; [done|].
  apply call_create_engine_inr in Hc2 as (-> & Hid2 & _).
  injection H2 as <- <- <-. simpl in *.
  split; [by rewrite Hid1, Hid2|]. split; [by rewrite <- app_assoc|]. split.
  - apply (_get_or_create_hit drv l obj1); [done|].
    unfold obj1. simpl. by rewrite lookup_insert_eq.
  - eapply _get_or_create_hit.
    + simpl. by rewrite lookup_insert_eq.
    + simpl. by rewrite lookup_insert_eq.
Qed.

Lemma create_replaces_cached_entry_witness :
  ∃ e1 sm1 e2 sm2 st1 st2,
    _create quiet 0%nat (Some "orders") orders_state = (inr (e1, sm1), st1)
    ∧ _create quiet 0%nat (Some "orders") st1 = (inr (e2, sm2), st2)
    ∧ eng_id e2 = S (eng_id e1).
Proof.
  eexists _, _, _, _, _, _. split; [vm_compute; reflexivity|].
  split; [vm_compute; reflexivity|].
  refine (proj1 (create_replaces_cached_entry quiet 0%nat _ (Some "orders")
                   _ _ _ _ orders_state _ _ _ _ _)).
  - vm_compute. reflexivity.
  - vm_compute. reflexivity.
  - vm_compute. reflexivity.
Defined.

(** ** The MSSQL routine *)

(** X15: a registry constructed with engine [mssql], the default engine,
    never connects.  It can only have been constructed without default
    database, its cache stays empty, and every request for a session
    factory, at any later point and for any name, raises [TypeError] and
    changes nothing: [_create_mssql] passes [cls] to [URL.create] as a
    keyword. *)
Theorem mssql_registry_never_connects drv h u p n dflt st l st1 st2 name :
  DatabaseServer_init drv h u p n "mssql" dflt st = (inr l, st1) →
  later drv st1 st2 →
  truthy dflt = false
  ∧ (∃ obj, servers st2 !! l = Some obj ∧ databases obj = ∅)
  ∧ get_session_maker drv l name st2 = (inl TypeError, st2).
Proof.
  intros Hinit Hlater.
  destruct (DatabaseServer_init_fields _ _ _ _ _ _ _ _ _ _ Hinit)
    as (Hnone & obj1 & Hl1 & _ & _ & _ & _ & _ & Hk).
  apply find_create_kind in Hk as Hmssql. clear Hk.
  assert (_create_engine obj1 = Create_mssql) as Hroutine.
  { by destruct (_create_engine obj1). }
  assert (cache_ok_at l st) as Hok0.
  { intros o d0 c0 Ho. by rewrite Hnone in Ho. }
  pose proof (DatabaseServer_init_keeps_ok _ l _ _ _ _ _ _ _ _ _ Hinit Hok0)
    as Hok1.
  pose proof (later_keeps_ok _ l _ _ Hlater Hok1) as Hok2.
  destruct (later_extends drv _ _ Hlater l obj1 Hl1) as (obj2 & Hl2 & Hle).
  destruct Hle as (_ & _ & _ & _ & Hroutine2 & _).
  rewrite Hroutine in Hroutine2.
  assert (∀ o, servers st2 !! l = Some o → databases o = ∅) as Hempty.
  { intros o Ho. apply map_empty. intros d.
    destruct (databases o !! d) as [c|] eqn:Hd; [|done].
    destruct (Hok2 o d c Ho Hd) as [Hne _].
    assert (o = obj2) as -> by congruence. done. }
  split; [|split].
  - destruct (DatabaseServer_init_inr _ _ _ _ _ _ _ _ _ _ Hinit)
      as (o & _ & Ho & _ & _ & _ & _ & Hcache).
    destruct (truthy dflt); [|done].
    destruct Hcache as (e & _ & _ & Hdb).
    assert (o = obj1) as -> by congruence.
    destruct (Hok1 obj1 dflt (e, factory_of e) Hl1) as [Hne _]; [|done].
    by rewrite Hdb, lookup_singleton_eq.
  - exists obj2. split; [done | by apply Hempty].
  - rewrite (get_session_maker_eq drv l obj2) by done.
    rewrite (_get_or_create_eq drv l obj2) by done.
    rewrite (Hempty obj2 Hl2), lookup_empty.
    rewrite (_create_eq drv l obj2) by done.
    by rewrite call_create_engine_mssql.
Qed.

Lemma mssql_registry_never_connects_witness :
  get_session_maker quiet 0%nat (Some "orders") mssql_state
  = (inl TypeError, mssql_state).
Proof.
  refine (proj2 (proj2 (mssql_registry_never_connects quiet "db-a" "app"
                          "secret" 1433 None empty_state 0%nat mssql_state
                          mssql_state (Some "orders") _ _))).
  - vm_compute. reflexivity.
  - apply later_refl.
Defined.
